(** * Settings resolution of the Ruff extension ([src/common/settings.ts])

    A shallow embedding of [settings.ts] and the properties of its
    functions: [resolveVariables], [getWorkspaceSettings],
    [getGlobalValue], [getGlobalSettings], [getExtensionSettings] and
    [checkIfConfigurationChanged].

    Strings are [string]; the characters the code inspects (the dollar sign,
    braces, colon) are all ASCII.  The host editor (configuration store,
    workspace folders, process environment, Python interpreter lookup) is
    the record [Host], shared by every function.  A promise is modelled by
    its outcome, [Fulfilled] with a value or [Rejected]; the type arguments
    of [config.get<T>] and [config.inspect<T>] are taken at their word. *)

From Stdlib Require Import String Ascii List Bool Arith Lia.
Import ListNotations.

Local Open Scope list_scope.
Local Open Scope string_scope.

(** ** Strings *)

Module Str.

(** [String.prototype.indexOf(pat)]: the least position at which [pat]
    occurs in [s]. *)
Fixpoint indexOf (s pat : string) : option nat :=
  if prefix pat s then Some 0
  else match s with
       | EmptyString => None
       | String _ s' => option_map S (indexOf s' pat)
       end.

(** [s.substring(0, n)] and [s.substring(n)]. *)
Fixpoint take (n : nat) (s : string) : string :=
  match n, s with
  | S n', String c s' => String c (take n' s')
  | _, _ => EmptyString
  end.

Fixpoint drop (n : nat) (s : string) : string :=
  match n, s with
  | S n', String _ s' => drop n' s'
  | _, _ => s
  end.

Definition dollar : ascii := "$"%char.

(** The abstract operation GetSubstitution of ECMAScript, for a string
    pattern (no captures, no named groups): in the replacement template
    [$$] stands for a dollar sign, [$&] for the matched text, [$`] for the
    text before the match and [$'] for the text after it; a dollar sign
    followed by anything else (digits and [<] included, as there is no
    capture) is copied. *)
Fixpoint GetSubstitution (matched preceding following template : string)
  : string :=
  match template with
  | EmptyString => EmptyString
  | String c rest =>
      if Ascii.eqb c dollar then
        match rest with
        | String d rest' =>
            if Ascii.eqb d "$" then
              String dollar (GetSubstitution matched preceding following rest')
            else if Ascii.eqb d "&" then
              matched ++ GetSubstitution matched preceding following rest'
            else if Ascii.eqb d "`" then
              preceding ++ GetSubstitution matched preceding following rest'
            else if Ascii.eqb d "'" then
              following ++ GetSubstitution matched preceding following rest'
            else String c (GetSubstitution matched preceding following rest)
        | EmptyString => String c EmptyString
        end
      else String c (GetSubstitution matched preceding following rest)
  end.

(** [s.replace(pat, template)] with a string pattern: only the first
    occurrence of [pat] is rewritten. *)
Definition replace (s pat template : string) : string :=
  match indexOf s pat with
  | None => s
  | Some position =>
      let preceding := take position s in
      let following := drop (position + String.length pat) s in
      preceding ++ GetSubstitution pat preceding following template ++ following
  end.

(** [pat] occurs in [s]. *)
Definition occurs (pat s : string) : Prop :=
  exists a b, s = a ++ pat ++ b.

(** [a ++ pat ++ b] is split at the first occurrence of [pat]. *)
Definition first_at (pat a b : string) : Prop :=
  forall a' b',
    a ++ pat ++ b = a' ++ pat ++ b' -> String.length a <= String.length a'.

(** No dollar sign in [s]: the template stands for itself. *)
Fixpoint plain (s : string) : bool :=
  match s with
  | EmptyString => true
  | String c s' => negb (Ascii.eqb c dollar) && plain s'
  end.

End Str.

(** ** The host's data *)

(** A [vscode.Uri], by the two renderings the code reads: [uri.fsPath] and
    [uri.toString()]. *)
Record Uri := {
  fsPath : string;
  toString : string
}.

Record WorkspaceFolder := {
  uri : Uri;
  name : string;
  folder_index : nat
}.

(** The two kinds of [ConfigurationScope] the code passes. *)
Inductive ConfigurationScope :=
| ScopeUri (u : Uri)
| ScopeFolder (w : WorkspaceFolder).

Inductive ImportStrategy := fromEnvironment | useBundled.

Inductive Run := onType | onSave.

(** [{ enable?: boolean }] *)
Record EnableOption := {
  option_enable : option bool
}.

Record CodeAction := {
  disableRuleComment : option EnableOption;
  fixViolation : option EnableOption
}.

(** The object literal [{}]. *)
Definition emptyCodeAction : CodeAction :=
  {| disableRuleComment := None; fixViolation := None |}.

Record ISettings := {
  cwd : string;
  workspace : string;
  args : list string;
  path : list string;
  interpreter : list string;
  importStrategy : ImportStrategy;
  run : Run;
  codeAction : CodeAction;
  enable : bool;
  enableExperimentalFormatter : bool;
  showNotifications : string;
  organizeImports : bool;
  fixAll : bool
}.

(** The type argument [T] of [config.get<T>] and [config.inspect<T>]: the
    code trusts it, so a configuration answers at the type it is asked. *)
Inductive SettingType :=
| TStrings | TString | TBool | TImportStrategy | TRun | TCodeAction.

Definition typeOf (t : SettingType) : Type :=
  match t with
  | TStrings => list string
  | TString => string
  | TBool => bool
  | TImportStrategy => ImportStrategy
  | TRun => Run
  | TCodeAction => CodeAction
  end.

(** The result of [config.inspect<T>(key)]; every layer is optional. *)
Module Inspection.

Record t (T : Type) := {
  defaultValue : option T;
  globalValue : option T;
  workspaceValue : option T;
  workspaceFolderValue : option T
}.

Arguments defaultValue {T} _.
Arguments globalValue {T} _.
Arguments workspaceValue {T} _.
Arguments workspaceFolderValue {T} _.

End Inspection.

(** [undefined] is [None]. *)
Record WorkspaceConfiguration := {
  get : forall t : SettingType, string -> option (typeOf t);
  inspect : forall t : SettingType, string -> option (Inspection.t (typeOf t))
}.

(** [e.affectsConfiguration(section, scope?)] *)
Record ConfigurationChangeEvent := {
  affectsConfiguration : string -> option ConfigurationScope -> bool
}.

(** [IInterpreterDetails] of [./python]. *)
Record IInterpreterDetails := {
  details_path : option (list string);
  details_resource : option Uri
}.

(** ** Promises *)

Inductive Promise (A : Type) :=
| Fulfilled (a : A)
| Rejected.

Arguments Fulfilled {A} a.
Arguments Rejected {A}.

Definition await {A B : Type} (p : Promise A) (k : A -> Promise B)
  : Promise B :=
  match p with
  | Fulfilled a => k a
  | Rejected => Rejected
  end.

Notation "x <- 'await' p ;; k" := (await p (fun x => k))
  (at level 61, p at next level, right associativity).

(** [Promise.all]: the values in the order of the promises, or a rejection
    as soon as one of them rejects. *)
Fixpoint Promise_all {A : Type} (ps : list (Promise A)) : Promise (list A) :=
  match ps with
  | [] => Fulfilled []
  | p :: ps' =>
      a <- await p ;;
      rest <- await Promise_all ps' ;;
      Fulfilled (a :: rest)
  end.

(** ** JavaScript operators *)

(** [o ?? d] *)
Definition nullish {A : Type} (o : option A) (d : A) : A :=
  match o with
  | Some a => a
  | None => d
  end.

(** [a ?? b] where [b] may be [undefined] too. *)
Definition nullish_option {A : Type} (o d : option A) : option A :=
  match o with
  | Some a => Some a
  | None => d
  end.

(** [o?.field] *)
Definition optional_chain {A B : Type} (o : option A) (field : A -> option B)
  : option B :=
  match o with
  | Some a => field a
  | None => None
  end.

Infix "??" := nullish (at level 45, left associativity).
Infix "?:" := nullish_option (at level 44, left associativity).
Infix "?." := optional_chain (at level 43, left associativity).

(** Truthiness of a [string | undefined]: defined and not empty. *)
Definition truthy (o : option string) : bool :=
  match o with
  | Some s => negb (s =? "")
  | None => false
  end.

(** [a || b] *)
Definition or_else (a b : option string) : option string :=
  if truthy a then a else b.

(** A [Map<string, string>]: the entries in insertion order; [set] on a
    key already present changes its value and keeps its position. *)
Definition StringMap := list (string * string).

Fixpoint map_set (m : StringMap) (key value : string) : StringMap :=
  match m with
  | [] => [(key, value)]
  | (k, v) :: m' =>
      if k =? key then (key, value) :: m' else (k, v) :: map_set m' key value
  end.

(** ** The host *)

(** What the file reads from its surroundings: [process.env],
    [process.cwd()], [getWorkspaceFolders] and [getConfiguration] of
    [./vscodeapi], and [getInterpreterDetails] of [./python]. *)
Record Host := {
  env_HOME : option string;
  env_USERPROFILE : option string;
  process_cwd : string;
  getWorkspaceFolders : list WorkspaceFolder;
  getConfiguration :
    string -> option ConfigurationScope -> WorkspaceConfiguration;
  getInterpreterDetails : Uri -> Promise IInterpreterDetails
}.

(** ** The functions of [settings.ts] *)

Section Settings.

Variable host : Host.

(** The map [substitutions] that [resolveVariables] builds. *)
Definition substitutions (workspace : option WorkspaceFolder) : StringMap :=
  let substitutions := [] in
  let home := or_else (env_HOME host) (env_USERPROFILE host) in
  let substitutions :=
    match home with
    | Some home =>
        if truthy (Some home) then map_set substitutions "${userHome}" home
        else substitutions
    | None => substitutions
    end in
  let substitutions :=
    match workspace with
    | Some workspace =>
        map_set substitutions "${workspaceFolder}" (fsPath (uri workspace))
    | None => substitutions
    end in
  let substitutions := map_set substitutions "${cwd}" (process_cwd host) in
  fold_left
    (fun substitutions w =>
       map_set substitutions ("${workspaceFolder:" ++ name w ++ "}")
         (fsPath (uri w)))
    (getWorkspaceFolders host) substitutions.

(** The loop [for (const [key, value] of substitutions)
    s = s.replace(key, value)]. *)
Definition substitute (substitutions : StringMap) (s : string) : string :=
  fold_left (fun s kv => Str.replace s (fst kv) (snd kv)) substitutions s.

Definition resolveVariables (value : list string)
  (workspace : option WorkspaceFolder) : list string :=
  map (substitute (substitutions workspace)) value.

Definition getInterpreterFromSetting (namespace : string)
  (scope : option ConfigurationScope) : option (list string) :=
  let config := getConfiguration host namespace scope in
  get config TStrings "interpreter".

Definition getWorkspaceSettings (namespace : string)
  (workspace : WorkspaceFolder) : Promise ISettings :=
  let config :=
    getConfiguration host namespace (Some (ScopeUri (uri workspace))) in
  let interpreter :=
    getInterpreterFromSetting namespace (Some (ScopeFolder workspace)) ?? [] in
  interpreter <- await
    (if Nat.eqb (List.length interpreter) 0 then
       details <- await getInterpreterDetails host (uri workspace) ;;
       Fulfilled (details_path details ?? [])
     else Fulfilled interpreter) ;;
  Fulfilled
    {| cwd := fsPath (uri workspace);
       workspace := toString (uri workspace);
       args :=
         resolveVariables (get config TStrings "args" ?? []) (Some workspace);
       path :=
         resolveVariables (get config TStrings "path" ?? []) (Some workspace);
       interpreter := resolveVariables interpreter (Some workspace);
       importStrategy :=
         get config TImportStrategy "importStrategy" ?? fromEnvironment;
       run := get config TRun "run" ?? onType;
       codeAction := get config TCodeAction "codeAction" ?? emptyCodeAction;
       enable := get config TBool "enable" ?? true;
       organizeImports := get config TBool "organizeImports" ?? true;
       fixAll := get config TBool "fixAll" ?? true;
       showNotifications := get config TString "showNotifications" ?? "off";
       enableExperimentalFormatter :=
         get config TBool "enableExperimentalFormatter" ?? false |}.

Definition getExtensionSettings (namespace : string)
  : Promise (list ISettings) :=
  Promise_all
    (map (fun workspaceFolder => getWorkspaceSettings namespace workspaceFolder)
       (getWorkspaceFolders host)).

Definition getGlobalValue {t : SettingType} (config : WorkspaceConfiguration)
  (key : string) (defaultValue : typeOf t) : typeOf t :=
  let inspect := inspect config t key in
  (inspect ?. Inspection.globalValue) ?: (inspect ?. Inspection.defaultValue)
  ?? defaultValue.

Definition getGlobalSettings (namespace : string) : Promise ISettings :=
  let config := getConfiguration host namespace None in
  Fulfilled
    {| cwd := process_cwd host;
       workspace := process_cwd host;
       args := getGlobalValue (t := TStrings) config "args" [];
       path := getGlobalValue (t := TStrings) config "path" [];
       interpreter := [];
       importStrategy :=
         getGlobalValue (t := TImportStrategy) config "importStrategy"
           fromEnvironment;
       run := getGlobalValue (t := TRun) config "run" onType;
       codeAction :=
         getGlobalValue (t := TCodeAction) config "codeAction" emptyCodeAction;
       enable := getGlobalValue (t := TBool) config "enable" true;
       organizeImports :=
         getGlobalValue (t := TBool) config "organizeImports" true;
       fixAll := getGlobalValue (t := TBool) config "fixAll" true;
       showNotifications :=
         getGlobalValue (t := TString) config "showNotifications" "off";
       enableExperimentalFormatter :=
         getGlobalValue (t := TBool) config "enableExperimentalFormatter"
           false |}.

End Settings.

(** The array [settings] of [checkIfConfigurationChanged]. *)
Definition settings (namespace : string) : list string :=
  [ namespace ++ ".args";
    namespace ++ ".codeAction";
    namespace ++ ".enable";
    namespace ++ ".fixAll";
    namespace ++ ".importStrategy";
    namespace ++ ".interpreter";
    namespace ++ ".organizeImports";
    namespace ++ ".path";
    namespace ++ ".run";
    namespace ++ ".showNotifications";
    namespace ++ ".enableExperimentalFormatter" ].

Definition checkIfConfigurationChanged (e : ConfigurationChangeEvent)
  (namespace : string) : bool :=
  existsb (fun s => affectsConfiguration e s None) (settings namespace).

(** ** Notions used to state the properties *)

(** [m.get(key)] on a [Map<string, string>]. *)
Fixpoint map_get (m : StringMap) (key : string) : option string :=
  match m with
  | [] => None
  | (k, v) :: m' => if k =? key then Some v else map_get m' key
  end.

(** The keys of [substitutions], in the order the loop visits them. *)
Definition placeholders (host : Host) (workspace : option WorkspaceFolder)
  : list string :=
  map fst (substitutions host workspace).

(** [process.env.HOME || process.env.USERPROFILE] *)
Definition home (host : Host) : option string :=
  or_else (env_HOME host) (env_USERPROFILE host).

(** The key [resolveVariables] gives to the workspace folder named [n]. *)
Definition namedPlaceholder (n : string) : string :=
  "${workspaceFolder:" ++ n ++ "}".

(** The last of the [folders] whose name is [n]. *)
Definition lastNamed (folders : list WorkspaceFolder) (n : string)
  : option WorkspaceFolder :=
  find (fun w => name w =? n) (rev folders).

(** The substitution as the specification words it: the first occurrence
    of the placeholder gives way to the value itself, character for
    character. *)
Definition replaceLiteral (s placeholder value : string) : string :=
  match Str.indexOf s placeholder with
  | None => s
  | Some position =>
      Str.take position s ++ value
      ++ Str.drop (position + String.length placeholder) s
  end.

Definition resolveVariablesLiteral (host : Host) (value : list string)
  (workspace : option WorkspaceFolder) : list string :=
  map (fun s =>
         fold_left (fun s kv => replaceLiteral s (fst kv) (snd kv))
           (substitutions host workspace) s)
    value.

(** The eleven setting names that [checkIfConfigurationChanged] watches. *)
Definition watchedKeys : list string :=
  [ "args"; "codeAction"; "enable"; "fixAll"; "importStrategy"; "interpreter";
    "organizeImports"; "path"; "run"; "showNotifications";
    "enableExperimentalFormatter" ].

(** The list [getWorkspaceSettings] starts from: the workspace setting
    [interpreter], read in the scope of the folder, or [[]]. *)
Definition configuredInterpreter (host : Host) (namespace : string)
  (workspace : WorkspaceFolder) : list string :=
  getInterpreterFromSetting host namespace (Some (ScopeFolder workspace)) ?? [].

(** A loop of [m.set(key w, value w)] over the elements [w] of [l]. *)
Definition set_each {W : Type} (key value : W -> string) (m : StringMap)
  (l : list W) : StringMap :=
  fold_left (fun m w => map_set m (key w) (value w)) l m.

(** [rewrites m s r]: [r] comes from [s] by visiting the entries of [m] in
    order; an entry whose key is absent changes nothing, the others rewrite
    the first occurrence of their key, and only that one. *)
Inductive rewrites : StringMap -> string -> string -> Prop :=
| rewrites_done (s : string) : rewrites [] s s
| rewrites_skip (k v : string) (m : StringMap) (s r : string) :
    ~ Str.occurs k s -> rewrites m s r -> rewrites ((k, v) :: m) s r
| rewrites_first (k v : string) (m : StringMap) (a b r : string) :
    Str.first_at k a b ->
    rewrites m (a ++ Str.GetSubstitution k a b v ++ b) r ->
    rewrites ((k, v) :: m) (a ++ k ++ b) r.

(** The elements of [l] without repetition, each at the place where it
    comes first. *)
Fixpoint firstOccurrences (l : list string) : list string :=
  match l with
  | [] => []
  | x :: l' => x :: filter (fun y => negb (y =? x)) (firstOccurrences l')
  end.

(** The character [c] does not occur in [s]. *)
Fixpoint lacks (c : ascii) (s : string) : bool :=
  match s with
  | EmptyString => true
  | String d s' => negb (Ascii.eqb d c) && lacks c s'
  end.

(** A folder name with neither a dollar sign nor a closing brace. *)
Definition simpleName (n : string) : bool :=
  lacks "$" n && lacks "}" n.

(** A key of the shape [$...}], with no other dollar sign and no other
    closing brace. *)
Definition wellShaped (k : string) : Prop :=
  exists body,
    k = String "$" (body ++ "}")
    /\ lacks "$" body = true /\ lacks "}" body = true.

(** [k] occurs at two places of [s] that do not overlap. *)
Definition occursTwice (k s : string) : Prop :=
  exists a b c, s = a ++ k ++ b ++ k ++ c.

(** The host with another answer to [getInterpreterDetails]. *)
Definition withInterpreterDetails (host : Host)
  (details : Uri -> Promise IInterpreterDetails) : Host :=
  {| env_HOME := env_HOME host;
     env_USERPROFILE := env_USERPROFILE host;
     process_cwd := process_cwd host;
     getWorkspaceFolders := getWorkspaceFolders host;
     getConfiguration := getConfiguration host;
     getInterpreterDetails := details |}.

(** ** A sample host *)

Module Sample.

Definition folderA : WorkspaceFolder :=
  {| uri := {| fsPath := "/work/a"; toString := "file:///work/a" |};
     name := "a"; folder_index := 0 |}.

Definition folderB : WorkspaceFolder :=
  {| uri := {| fsPath := "/work/b"; toString := "file:///work/b" |};
     name := "b"; folder_index := 1 |}.

(** A configuration store with no value at all. *)
Definition noConfiguration : WorkspaceConfiguration :=
  {| get := fun _ _ => None; inspect := fun _ _ => None |}.

Definition noDetails (resource : Uri) : Promise IInterpreterDetails :=
  Fulfilled {| details_path := None; details_resource := Some resource |}.

Definition host : Host :=
  {| env_HOME := Some "/home/u";
     env_USERPROFILE := None;
     process_cwd := "/tmp";
     getWorkspaceFolders := [folderA; folderB];
     getConfiguration := fun _ _ => noConfiguration;
     getInterpreterDetails := noDetails |}.

(** A configuration whose user settings turn [enable] off and which
    names an interpreter for the folder. *)
Definition userConfiguration : WorkspaceConfiguration :=
  {| get := fun t key =>
       match t return option (typeOf t) with
       | TStrings =>
           if key =? "interpreter"
           then Some ["${workspaceFolder}/.venv/bin/python"]
           else None
       | TBool => if key =? "enable" then Some false else None
       | _ => None
       end;
     inspect := fun t key =>
       match t return option (Inspection.t (typeOf t)) with
       | TBool =>
           if key =? "enable" then
             Some {| Inspection.defaultValue := Some true;
                     Inspection.globalValue := Some false;
                     Inspection.workspaceValue := None;
                     Inspection.workspaceFolderValue := None |}
           else None
       | _ => None
       end |}.

(** The Python extension cannot be reached. *)
Definition noPython (resource : Uri) : Promise IInterpreterDetails :=
  Rejected.

Definition configuredHost : Host :=
  {| env_HOME := Some "/home/u";
     env_USERPROFILE := None;
     process_cwd := "/tmp";
     getWorkspaceFolders := [folderA; folderB];
     getConfiguration := fun _ _ => userConfiguration;
     getInterpreterDetails := noPython |}.

Definition refusedHost : Host :=
  {| env_HOME := Some "/home/u";
     env_USERPROFILE := None;
     process_cwd := "/tmp";
     getWorkspaceFolders := [folderA; folderB];
     getConfiguration := fun _ _ => noConfiguration;
     getInterpreterDetails := noPython |}.

(** A home directory with two dollar signs in its name. *)
Definition dollarHost : Host :=
  {| env_HOME := Some "/home/a$$b";
     env_USERPROFILE := None;
     process_cwd := "/tmp";
     getWorkspaceFolders := [folderA; folderB];
     getConfiguration := fun _ _ => noConfiguration;
     getInterpreterDetails := noDetails |}.

(** A second folder that is called [a] too. *)
Definition folderA2 : WorkspaceFolder :=
  {| uri := {| fsPath := "/other/a"; toString := "file:///other/a" |};
     name := "a"; folder_index := 1 |}.

Definition twinHost : Host :=
  {| env_HOME := Some "";
     env_USERPROFILE := Some "C:\Users\u";
     process_cwd := "/tmp";
     getWorkspaceFolders := [folderA; folderA2];
     getConfiguration := fun _ _ => noConfiguration;
     getInterpreterDetails := noDetails |}.

(** A folder whose name ends like the start of a placeholder. *)
Definition folderOdd : WorkspaceFolder :=
  {| uri := {| fsPath := "/work/odd"; toString := "file:///work/odd" |};
     name := "x${cwd"; folder_index := 0 |}.

Definition oddHost : Host :=
  {| env_HOME := Some "/home/u";
     env_USERPROFILE := None;
     process_cwd := "/tmp";
     getWorkspaceFolders := [folderOdd];
     getConfiguration := fun _ _ => noConfiguration;
     getInterpreterDetails := noDetails |}.

(** A folder whose name holds a closing brace, beside the folder [a]. *)
Definition folderBrace : WorkspaceFolder :=
  {| uri := {| fsPath := "/work/ab"; toString := "file:///work/ab" |};
     name := "a}b"; folder_index := 0 |}.

Definition braceHost : Host :=
  {| env_HOME := Some "/home/u";
     env_USERPROFILE := None;
     process_cwd := "/tmp";
     getWorkspaceFolders := [folderBrace; folderA];
     getConfiguration := fun _ _ => noConfiguration;
     getInterpreterDetails := noDetails |}.

(** An event that affects exactly one section. *)
Definition affects (section : string) : ConfigurationChangeEvent :=
  {| affectsConfiguration := fun s _ => s =? section |}.

End Sample.

(** ** Examples *)

Example replace_first_only :
  Str.replace "${cwd}/a:${cwd}/b" "${cwd}" "/tmp" = "/tmp/a:${cwd}/b".
Proof. reflexivity. Qed.

Example replace_dollar_patterns :
  Str.replace "x-${cwd}-y" "${cwd}" "[$$|$&|$`|$'|$1|$]"
  = "x-[$|${cwd}|x-|-y|$1|$]-y".
Proof. reflexivity. Qed.

Example replace_empty_pattern : Str.replace "abc" "" "X" = "Xabc".
Proof. reflexivity. Qed.

Example substitutions_sample :
  substitutions Sample.host (Some Sample.folderA)
  = [ ("${userHome}", "/home/u");
      ("${workspaceFolder}", "/work/a");
      ("${cwd}", "/tmp");
      ("${workspaceFolder:a}", "/work/a");
      ("${workspaceFolder:b}", "/work/b") ].
Proof. reflexivity. Qed.

Example substitutions_twin :
  substitutions Sample.twinHost None
  = [ ("${userHome}", "C:\Users\u"); ("${cwd}", "/tmp");
      ("${workspaceFolder:a}", "/other/a") ].
Proof. reflexivity. Qed.

Example resolveVariables_sample :
  resolveVariables Sample.host
    [ "${userHome}/bin/ruff"; "--config=${workspaceFolder:b}/ruff.toml";
      "${cwd}:${cwd}"; "plain" ]
    (Some Sample.folderA)
  = [ "/home/u/bin/ruff"; "--config=/work/b/ruff.toml"; "/tmp:${cwd}"; "plain" ].
Proof. reflexivity. Qed.

(** A placeholder inside another one: the later key takes both. *)
Example resolveVariables_odd :
  resolveVariables Sample.oddHost ["${cwd}:${workspaceFolder:x${cwd}"]
    (Some Sample.folderOdd)
  = ["/tmp:/work/odd"].
Proof. reflexivity. Qed.

(** A closing brace in a folder name has the same effect. *)
Example resolveVariables_brace :
  resolveVariables Sample.braceHost
    ["${workspaceFolder:a}b}:${workspaceFolder:a}"] (Some Sample.folderA)
  = ["/work/ab:/work/a"].
Proof. reflexivity. Qed.

Example getExtensionSettings_sample :
  exists a b, getExtensionSettings Sample.host "ruff" = Fulfilled [a; b]
    /\ cwd a = "/work/a" /\ cwd b = "/work/b".
Proof. do 2 eexists. split; [reflexivity|]. split; reflexivity. Qed.

(** With an interpreter in the settings the Python extension is not asked;
    without one its refusal rejects the whole request. *)
Example getWorkspaceSettings_configured :
  exists r,
    getWorkspaceSettings Sample.configuredHost "ruff" Sample.folderA = Fulfilled r
    /\ interpreter r = ["/work/a/.venv/bin/python"] /\ enable r = false.
Proof. eexists. split; [reflexivity|]. split; reflexivity. Qed.

Example getExtensionSettings_refused :
  getExtensionSettings Sample.refusedHost "ruff" = Rejected.
Proof. reflexivity. Qed.

Example checkIfConfigurationChanged_sample :
  checkIfConfigurationChanged (Sample.affects "ruff.interpreter") "ruff" = true
  /\ checkIfConfigurationChanged (Sample.affects "ruff.lint") "ruff" = false.
Proof. split; reflexivity. Qed.

(** ** Facts about strings *)

Lemma append_nil_r (s : string) : s ++ "" = s.
Proof. induction s as [|c s IH]; simpl; [reflexivity | now rewrite IH]. Qed.

Lemma append_assoc (a b c : string) : (a ++ b) ++ c = a ++ b ++ c.
Proof. induction a as [|x a IH]; simpl; [reflexivity | now rewrite IH]. Qed.

Lemma length_append (a b : string) :
  String.length (a ++ b) = String.length a + String.length b.
Proof. induction a as [|x a IH]; simpl; [reflexivity | now rewrite IH]. Qed.

Lemma append_inv_head (a b c : string) : a ++ b = a ++ c -> b = c.
Proof.
  induction a as [|x a IH]; simpl; intro H; [exact H|].
  injection H as H. now apply IH.
Qed.

(** Two ways to cut one string: the shorter head is a prefix of the longer. *)
Lemma append_eq_split (x y u w : string) :
  x ++ y = u ++ w -> String.length x <= String.length u ->
  exists m, u = x ++ m /\ y = m ++ w.
Proof.
  revert u. induction x as [|c x IH]; intros u H Hlen.
  - exists u. now split.
  - destruct u as [|d u]; simpl in Hlen; [lia|].
    simpl in H. injection H as Hc H.
    destruct (IH u H) as [m [Hu Hy]]; [lia|].
    exists m. subst. now split.
Qed.

Lemma append_eq_length (a b a' b' : string) :
  a ++ b = a' ++ b' -> String.length a = String.length a' ->
  a = a' /\ b = b'.
Proof.
  intros H Hlen.
  destruct (append_eq_split a b a' b' H) as [m [Ha Hb]]; [lia|].
  destruct m as [|c m].
  - rewrite append_nil_r in Ha. now subst.
  - rewrite Ha, length_append in Hlen. simpl in Hlen. lia.
Qed.

Lemma take_append (a b : string) : Str.take (String.length a) (a ++ b) = a.
Proof. induction a as [|x a IH]; simpl; [now destruct b | now rewrite IH]. Qed.

Lemma drop_append (a b : string) : Str.drop (String.length a) (a ++ b) = b.
Proof. induction a as [|x a IH]; simpl; [now destruct b | exact IH]. Qed.

Lemma drop_append_append (a k b : string) :
  Str.drop (String.length a + String.length k) (a ++ k ++ b) = b.
Proof.
  induction a as [|x a IH]; simpl; [apply drop_append | exact IH].
Qed.

Lemma prefix_iff (p s : string) :
  prefix p s = true <-> exists r, s = p ++ r.
Proof.
  revert p. induction s as [|c s IH]; intros p.
  - destruct p as [|d p]; simpl.
    + split; [exists ""; reflexivity | reflexivity].
    + split; [discriminate | intros [r H]; discriminate].
  - destruct p as [|d p]; simpl.
    + split; [intros _; now exists (String c s) | reflexivity].
    + destruct (ascii_dec d c) as [->|Hne].
      * rewrite IH. split; intros [r H]; exists r.
        -- now rewrite H.
        -- now injection H.
      * split; [discriminate|]. intros [r H]. injection H as H1 H2.
        now symmetry in H1.
Qed.

(** [indexOf] finds the first occurrence. *)
Lemma indexOf_nil (p : string) :
  Str.indexOf "" p = if prefix p "" then Some 0 else None.
Proof. reflexivity. Qed.

Lemma indexOf_cons (c : ascii) (s p : string) :
  Str.indexOf (String c s) p
  = if prefix p (String c s) then Some 0 else option_map S (Str.indexOf s p).
Proof. reflexivity. Qed.

Lemma indexOf_Some (s p : string) (n : nat) :
  Str.indexOf s p = Some n ->
  exists a b, s = a ++ p ++ b /\ String.length a = n /\ Str.first_at p a b.
Proof.
  revert n. induction s as [|c s IH]; intros n.
  - rewrite indexOf_nil. destruct (prefix p "") eqn:Hp; [|discriminate].
    intros [= <-]. apply prefix_iff in Hp as [r Hr].
    exists "", r. repeat split; [exact Hr | intros a' b' _; simpl; lia].
  - rewrite indexOf_cons. destruct (prefix p (String c s)) eqn:Hp.
    + intros [= <-]. apply prefix_iff in Hp as [r Hr].
      exists "", r. repeat split; [exact Hr | intros a' b' _; simpl; lia].
    + destruct (Str.indexOf s p) as [m|] eqn:Hi; [|discriminate].
      simpl. intros [= <-].
      destruct (IH m eq_refl) as [a [b [Hs [Hlen Hfirst]]]].
      exists (String c a), b. repeat split.
      * simpl. now rewrite Hs.
      * simpl. now rewrite Hlen.
      * intros a' b' H. destruct a' as [|d a'].
        -- exfalso. simpl in H.
           assert (prefix p (String c s) = true) as Habs
             by (apply prefix_iff; exists b'; rewrite Hs; exact H).
           congruence.
        -- simpl in H. injection H as _ H. simpl.
           apply le_n_S. exact (Hfirst _ _ H).
Qed.

Lemma indexOf_None (s p : string) :
  Str.indexOf s p = None <-> ~ Str.occurs p s.
Proof.
  split.
  - induction s as [|c s IH].
    + rewrite indexOf_nil. destruct (prefix p "") eqn:Hp; [discriminate|].
      intros _ [a [b H]]. destruct a; [|discriminate].
      assert (prefix p "" = true) by (apply prefix_iff; now exists b).
      congruence.
    + rewrite indexOf_cons.
      destruct (prefix p (String c s)) eqn:Hp; [discriminate|].
      destruct (Str.indexOf s p) eqn:Hi; [discriminate|].
      intros _ [a [b H]]. destruct a as [|d a].
      * assert (prefix p (String c s) = true)
          by (apply prefix_iff; now exists b).
        congruence.
      * simpl in H. injection H as _ H. apply IH; [reflexivity|].
        now exists a, b.
  - intros Hno. destruct (Str.indexOf s p) as [n|] eqn:Hi; [|reflexivity].
    exfalso. apply Hno.
    destruct (indexOf_Some _ _ _ Hi) as [a [b [Hs _]]]. now exists a, b.
Qed.

Lemma indexOf_first (p a b : string) :
  Str.first_at p a b -> Str.indexOf (a ++ p ++ b) p = Some (String.length a).
Proof.
  intros Hfirst.
  destruct (Str.indexOf (a ++ p ++ b) p) as [n|] eqn:Hi.
  - destruct (indexOf_Some _ _ _ Hi) as [a' [b' [Hs [Hlen Hfirst']]]].
    f_equal. subst n.
    pose proof (Hfirst _ _ Hs). pose proof (Hfirst' _ _ (eq_sym Hs)). lia.
  - exfalso. apply indexOf_None in Hi. apply Hi. now exists a, b.
Qed.

(** ** Facts about [replace] *)

Lemma replace_absent (s k v : string) :
  ~ Str.occurs k s -> Str.replace s k v = s.
Proof.
  intros H. unfold Str.replace. apply indexOf_None in H. now rewrite H.
Qed.

Lemma replace_first (k v a b : string) :
  Str.first_at k a b ->
  Str.replace (a ++ k ++ b) k v = a ++ Str.GetSubstitution k a b v ++ b.
Proof.
  intros H. unfold Str.replace. rewrite (indexOf_first _ _ _ H).
  cbv zeta. now rewrite take_append, drop_append_append.
Qed.

(** Every string either lacks [k] or splits at the first occurrence of [k]. *)
Lemma occurs_first (k s : string) :
  Str.occurs k s -> exists a b, s = a ++ k ++ b /\ Str.first_at k a b.
Proof.
  intros H. destruct (Str.indexOf s k) as [n|] eqn:Hi.
  - destruct (indexOf_Some _ _ _ Hi) as [a [b [Hs [_ Hf]]]]. now exists a, b.
  - apply indexOf_None in Hi. contradiction.
Qed.

Lemma occurs_dec (k s : string) : Str.occurs k s \/ ~ Str.occurs k s.
Proof.
  destruct (Str.indexOf s k) as [n|] eqn:Hi.
  - left. destruct (indexOf_Some _ _ _ Hi) as [a [b [Hs _]]]. now exists a, b.
  - right. now apply indexOf_None.
Qed.

(** A template without a dollar sign is inserted as it is. *)
Lemma GetSubstitution_plain (k a b v : string) :
  Str.plain v = true -> Str.GetSubstitution k a b v = v.
Proof.
  induction v as [|c v IH]; simpl; [reflexivity|].
  intros H. apply andb_true_iff in H as [Hc Hv].
  apply negb_true_iff in Hc. rewrite Hc. now rewrite IH.
Qed.

(** The step for [k] keeps a later occurrence of [k] and all that follows it. *)
Lemma replace_keeps_later (k v a b c : string) :
  exists t, Str.replace (a ++ k ++ b ++ k ++ c) k v = t ++ k ++ c.
Proof.
  destruct (occurs_first k (a ++ k ++ b ++ k ++ c)) as [a0 [b0 [Hs Hf]]].
  { now exists a, (b ++ k ++ c). }
  rewrite Hs, (replace_first _ v _ _ Hf).
  assert (String.length (a0 ++ k) <= String.length (a ++ k ++ b)) as Hlen.
  { pose proof (Hf a (b ++ k ++ c)) as Hle. rewrite <- Hs in Hle.
    specialize (Hle eq_refl). rewrite !length_append. lia. }
  assert ((a0 ++ k) ++ b0 = (a ++ k ++ b) ++ k ++ c) as Heq.
  { rewrite !append_assoc. now rewrite <- Hs. }
  destruct (append_eq_split _ _ _ _ Heq Hlen) as [m [_ Hb0]].
  exists (a0 ++ Str.GetSubstitution k a0 b0 v ++ m).
  rewrite Hb0 at 2. now rewrite !append_assoc.
Qed.

(** ** Facts about the substitution map *)

Lemma map_get_set (m : StringMap) (k v k' : string) :
  map_get (map_set m k v) k' = if k =? k' then Some v else map_get m k'.
Proof.
  induction m as [|[k0 v0] m IH]; simpl; [reflexivity|].
  destruct (String.eqb_spec k0 k) as [->|Hne]; simpl.
  - destruct (k =? k'); reflexivity.
  - rewrite IH. destruct (String.eqb_spec k0 k') as [->|Hne'].
    + apply String.eqb_neq in Hne. rewrite String.eqb_sym in Hne.
      now rewrite Hne.
    + reflexivity.
Qed.

Lemma map_set_keys (m : StringMap) (k v k' : string) :
  In k' (map fst (map_set m k v)) <-> k' = k \/ In k' (map fst m).
Proof.
  induction m as [|[k0 v0] m IH]; simpl.
  - intuition congruence.
  - destruct (String.eqb_spec k0 k) as [->|Hne]; simpl.
    + intuition congruence.
    + rewrite IH. intuition congruence.
Qed.

Lemma map_set_NoDup (m : StringMap) (k v : string) :
  NoDup (map fst m) -> NoDup (map fst (map_set m k v)).
Proof.
  induction m as [|[k0 v0] m IH]; simpl; intros H.
  - constructor; [intros [] | constructor].
  - inversion H as [|? ? Hnotin Hnd]; subst.
    destruct (String.eqb_spec k0 k) as [->|Hne]; simpl.
    + now constructor.
    + constructor; [|now apply IH].
      rewrite map_set_keys. intros [->|Hin]; [now apply Hne | contradiction].
Qed.

Lemma map_get_In (m : StringMap) (k v : string) :
  map_get m k = Some v -> In (k, v) m.
Proof.
  induction m as [|[k0 v0] m IH]; simpl; [discriminate|].
  destruct (String.eqb_spec k0 k) as [->|Hne].
  - intros [= ->]. now left.
  - intros H. right. now apply IH.
Qed.

Lemma In_map_get (m : StringMap) (k v : string) :
  NoDup (map fst m) -> In (k, v) m -> map_get m k = Some v.
Proof.
  induction m as [|[k0 v0] m IH]; simpl; intros Hnd Hin; [contradiction|].
  inversion Hnd as [|? ? Hnotin Hnd']; subst.
  destruct Hin as [[= -> ->]|Hin].
  - now rewrite String.eqb_refl.
  - destruct (String.eqb_spec k0 k) as [->|Hne]; [|now apply IH].
    exfalso. apply Hnotin. now apply (in_map fst) in Hin.
Qed.

Lemma map_get_None (m : StringMap) (k : string) :
  map_get m k = None <-> ~ In k (map fst m).
Proof.
  induction m as [|[k0 v0] m IH]; simpl; [intuition|].
  destruct (String.eqb_spec k0 k) as [->|Hne].
  - split; [discriminate | intros H; exfalso; apply H; now left].
  - rewrite IH. intuition.
Qed.

Lemma find_app {A : Type} (f : A -> bool) (l1 l2 : list A) :
  find f (l1 ++ l2)%list
  = match find f l1 with Some x => Some x | None => find f l2 end.
Proof.
  induction l1 as [|x l1 IH]; simpl; [reflexivity|].
  destruct (f x); [reflexivity | exact IH].
Qed.

Section FoldSet.

Context {W : Type} (key value : W -> string).

Lemma set_each_cons (m : StringMap) (w : W) (l : list W) :
  set_each key value m (w :: l)
  = set_each key value (map_set m (key w) (value w)) l.
Proof. reflexivity. Qed.

Lemma set_each_NoDup (l : list W) (m : StringMap) :
  NoDup (map fst m) -> NoDup (map fst (set_each key value m l)).
Proof.
  revert m. induction l as [|w l IH]; intros m H; [exact H|].
  rewrite set_each_cons. apply IH. now apply map_set_NoDup.
Qed.

Lemma set_each_keys (l : list W) (m : StringMap) (k : string) :
  In k (map fst (set_each key value m l))
  <-> In k (map fst m) \/ exists w, In w l /\ key w = k.
Proof.
  revert m. induction l as [|w l IH]; intros m.
  - split; [now left | intros [H|[w [[] _]]]; exact H].
  - rewrite set_each_cons, IH, map_set_keys. split.
    + intros [[->|H]|[w' [Hin Hk]]].
      * right. exists w. split; [now left | reflexivity].
      * now left.
      * right. exists w'. split; [now right | exact Hk].
    + intros [H|[w' [[<-|Hin] Hk]]].
      * left. now right.
      * left. left. now symmetry.
      * right. now exists w'.
Qed.

(** The last element with a given key decides the value. *)
Lemma set_each_get (l : list W) (m : StringMap) (k : string) :
  map_get (set_each key value m l) k
  = match find (fun w => key w =? k) (rev l) with
    | Some w => Some (value w)
    | None => map_get m k
    end.
Proof.
  revert m. induction l as [|w l IH]; intros m; [reflexivity|].
  rewrite set_each_cons, IH, map_get_set. simpl rev. rewrite find_app.
  destruct (find (fun w0 => key w0 =? k) (rev l)); [reflexivity|].
  simpl. destruct (key w =? k); reflexivity.
Qed.

End FoldSet.

(** ** The contents of [substitutions] *)

Section Substitutions.

Variable host : Host.
Variable workspace : option WorkspaceFolder.

Let folderPath (w : WorkspaceFolder) : string := fsPath (uri w).
Let folderKey (w : WorkspaceFolder) : string := namedPlaceholder (name w).

(** The map is the three fixed entries, then one [set] per open folder. *)
Lemma substitutions_set_each :
  exists base,
    substitutions host workspace
    = set_each folderKey folderPath base (getWorkspaceFolders host)
    /\ NoDup (map fst base)
    /\ (forall k, In k (map fst base) ->
          k = "${userHome}" \/ k = "${workspaceFolder}" \/ k = "${cwd}")
    /\ map_get base "${cwd}" = Some (process_cwd host)
    /\ map_get base "${workspaceFolder}" = option_map folderPath workspace
    /\ map_get base "${userHome}"
       = (if truthy (home host) then home host else None)
    /\ (forall n, map_get base (namedPlaceholder n) = None).
Proof.
  unfold substitutions. fold (home host).
  destruct (home host) as [d|]; [destruct (truthy (Some d))|];
    destruct workspace as [w|];
    eexists; (split; [reflexivity|]); cbn [map_set String.eqb Ascii.eqb Bool.eqb];
    cbn [map fst map_get option_map String.eqb Ascii.eqb Bool.eqb];
    (repeat split;
     [ repeat constructor; cbn [In]; intuition discriminate
     | cbn [In]; intuition
     | try reflexivity .. ]).
Qed.

Lemma find_pointwise {A : Type} (f g : A -> bool) (l : list A) :
  (forall x, f x = g x) -> find f l = find g l.
Proof.
  intros H. induction l as [|x l IH]; simpl; [reflexivity|].
  now rewrite H, IH.
Qed.

Lemma find_never {A : Type} (f : A -> bool) (l : list A) :
  (forall x, f x = false) -> find f l = None.
Proof.
  intros H. induction l as [|x l IH]; simpl; [reflexivity|].
  now rewrite H.
Qed.

Lemma substitutions_NoDup : NoDup (placeholders host workspace).
Proof.
  unfold placeholders.
  destruct substitutions_set_each as [base [-> [Hnd _]]].
  now apply set_each_NoDup.
Qed.

(** Every key of the map is one of the four kinds of placeholder. *)
Lemma placeholders_kinds (k : string) :
  In k (placeholders host workspace) ->
  k = "${userHome}" \/ k = "${workspaceFolder}" \/ k = "${cwd}"
  \/ exists w, In w (getWorkspaceFolders host) /\ k = namedPlaceholder (name w).
Proof.
  unfold placeholders.
  destruct substitutions_set_each as [base [-> [_ [Hkeys _]]]].
  rewrite set_each_keys. intros [H|[w [Hin Hk]]].
  - destruct (Hkeys k H) as [?|[?|?]]; auto.
  - right. right. right. exists w. now split.
Qed.

Lemma substitutions_cwd :
  map_get (substitutions host workspace) "${cwd}" = Some (process_cwd host).
Proof.
  destruct substitutions_set_each as [base [-> [_ [_ [H _]]]]].
  rewrite set_each_get, find_never; [exact H | reflexivity].
Qed.

Lemma substitutions_workspaceFolder :
  map_get (substitutions host workspace) "${workspaceFolder}"
  = option_map (fun w => fsPath (uri w)) workspace.
Proof.
  destruct substitutions_set_each as [base [-> [_ [_ [_ [H _]]]]]].
  rewrite set_each_get, find_never; [exact H | reflexivity].
Qed.

Lemma substitutions_userHome :
  map_get (substitutions host workspace) "${userHome}"
  = if truthy (home host) then home host else None.
Proof.
  destruct substitutions_set_each as [base [-> [_ [_ [_ [_ [H _]]]]]]].
  rewrite set_each_get, find_never; [exact H | reflexivity].
Qed.

Lemma namedPlaceholder_inj (n n' : string) :
  namedPlaceholder n = namedPlaceholder n' -> n = n'.
Proof.
  unfold namedPlaceholder. intros H.
  apply append_inv_head in H. revert n' H.
  induction n as [|c n IH]; intros [|c' n'] H; simpl in H.
  - reflexivity.
  - injection H as _ H. destruct n'; discriminate.
  - injection H as _ H. destruct n; discriminate.
  - injection H as -> H. f_equal. now apply IH.
Qed.

Lemma namedPlaceholder_eqb (n n' : string) :
  (namedPlaceholder n =? namedPlaceholder n') = (n =? n').
Proof.
  destruct (String.eqb_spec n n') as [->|Hne].
  - apply String.eqb_refl.
  - apply String.eqb_neq. intros H. now apply Hne, namedPlaceholder_inj.
Qed.

(** Among folders of one name, the last one listed gives the path. *)
Lemma substitutions_named (n : string) :
  map_get (substitutions host workspace) (namedPlaceholder n)
  = option_map (fun w => fsPath (uri w))
      (lastNamed (getWorkspaceFolders host) n).
Proof.
  destruct substitutions_set_each as [base [-> [_ [_ [_ [_ [_ H]]]]]]].
  rewrite set_each_get, H. unfold lastNamed, folderKey.
  rewrite (find_pointwise _ (fun w => name w =? n));
    [|intros w; apply namedPlaceholder_eqb].
  now destruct (find _ _).
Qed.

End Substitutions.

(** ** Facts about the substitution loop *)

Lemma substitute_cons (k v : string) (m : StringMap) (s : string) :
  substitute ((k, v) :: m) s = substitute m (Str.replace s k v).
Proof. reflexivity. Qed.

Lemma substitute_app (m1 m2 : StringMap) (s : string) :
  substitute (m1 ++ m2)%list s = substitute m2 (substitute m1 s).
Proof. unfold substitute. apply fold_left_app. Qed.

(** A string in which no key occurs goes through the loop unchanged. *)
Lemma substitute_absent (m : StringMap) (s : string) :
  (forall k, In k (map fst m) -> ~ Str.occurs k s) -> substitute m s = s.
Proof.
  induction m as [|[k v] m IH]; intros H; [reflexivity|].
  rewrite substitute_cons, replace_absent.
  - apply IH. intros k' Hin. apply H. now right.
  - apply H. now left.
Qed.

Lemma substitute_rewrites (m : StringMap) (s : string) :
  rewrites m s (substitute m s).
Proof.
  revert s. induction m as [|[k v] m IH]; intros s.
  - constructor.
  - rewrite substitute_cons. destruct (occurs_dec k s) as [Hocc|Hno].
    + destruct (occurs_first k s Hocc) as [a [b [-> Hfirst]]].
      rewrite (replace_first _ v _ _ Hfirst).
      apply rewrites_first; [exact Hfirst | apply IH].
    + rewrite (replace_absent _ _ v Hno).
      apply rewrites_skip; [exact Hno | apply IH].
Qed.

(** When the other keys occur neither in [s] nor in the string that the
    step for [k] leaves, the loop does what that single step does. *)
Lemma substitute_single (m : StringMap) (k v s : string) :
  NoDup (map fst m) -> In (k, v) m ->
  (forall k', In k' (map fst m) -> k' <> k ->
     ~ Str.occurs k' s /\ ~ Str.occurs k' (Str.replace s k v)) ->
  substitute m s = Str.replace s k v.
Proof.
  intros Hnd Hin Hiso.
  destruct (in_split _ _ Hin) as [m1 [m2 ->]].
  rewrite map_app in Hnd, Hiso. simpl in Hnd, Hiso.
  pose proof (NoDup_remove_2 _ _ _ Hnd) as Hk.
  rewrite substitute_app, substitute_cons.
  rewrite (substitute_absent m1 s).
  - apply substitute_absent. intros k' Hin'.
    apply Hiso.
    + apply in_or_app. right. now right.
    + intros ->. apply Hk. apply in_or_app. now right.
  - intros k' Hin'. apply Hiso.
    + apply in_or_app. now left.
    + intros ->. apply Hk. apply in_or_app. now left.
Qed.

Lemma Forall2_map_r {A B : Type} (R : A -> B -> Prop) (f : A -> B)
  (l : list A) :
  (forall x, In x l -> R x (f x)) -> Forall2 R l (map f l).
Proof.
  induction l as [|x l IH]; intros H; simpl; constructor.
  - apply H. now left.
  - apply IH. intros y Hy. apply H. now right.
Qed.

(** X5: a placeholder whose value has no dollar sign: its first occurrence
    is rewritten to the value itself, when no other placeholder occurs in
    the string or in the result. *)
Lemma resolveVariables_plain_placeholder (host : Host)
  (workspace : option WorkspaceFolder) (k v a b : string) :
  map_get (substitutions host workspace) k = Some v ->
  Str.plain v = true ->
  Str.first_at k a b ->
  (forall k', In k' (placeholders host workspace) -> k' <> k ->
     ~ Str.occurs k' (a ++ k ++ b) /\ ~ Str.occurs k' (a ++ v ++ b)) ->
  resolveVariables host [a ++ k ++ b] workspace = [a ++ v ++ b].
Proof.
  intros Hget Hplain Hfirst Hiso.
  assert (Str.replace (a ++ k ++ b) k v = a ++ v ++ b) as Hstep.
  { rewrite (replace_first _ _ _ _ Hfirst).
    now rewrite (GetSubstitution_plain _ _ _ _ Hplain). }
  unfold resolveVariables. simpl. f_equal.
  rewrite <- Hstep. apply substitute_single.
  - apply substitutions_NoDup.
  - now apply map_get_In.
  - intros k' Hin Hne. rewrite Hstep. now apply Hiso.
Qed.

(** ** Substitution of the values themselves *)

Lemma replace_literal (s k v : string) :
  Str.plain v = true -> Str.replace s k v = replaceLiteral s k v.
Proof.
  intros Hplain. unfold Str.replace, replaceLiteral.
  destruct (Str.indexOf s k) as [position|]; [|reflexivity].
  cbv zeta. now rewrite GetSubstitution_plain.
Qed.

(** Every value of the map is the home directory, the path of the given
    folder, the working directory or the path of an open folder. *)
Lemma substitutions_values (host : Host) (workspace : option WorkspaceFolder)
  (k v : string) :
  In (k, v) (substitutions host workspace) ->
  home host = Some v
  \/ option_map (fun w => fsPath (uri w)) workspace = Some v
  \/ process_cwd host = v
  \/ exists w, In w (getWorkspaceFolders host) /\ fsPath (uri w) = v.
Proof.
  intros Hin.
  pose proof (In_map_get _ _ _ (substitutions_NoDup host workspace) Hin) as Hget.
  apply (in_map fst) in Hin. simpl in Hin.
  destruct (placeholders_kinds host workspace k Hin)
    as [->|[->|[->|[w [_ ->]]]]].
  - rewrite substitutions_userHome in Hget.
    destruct (truthy (home host)); [now left | discriminate].
  - rewrite substitutions_workspaceFolder in Hget. right. now left.
  - rewrite substitutions_cwd in Hget. injection Hget as <-.
    right. right. now left.
  - rewrite substitutions_named in Hget. unfold lastNamed in Hget.
    destruct (find _ _) as [w'|] eqn:Hfind; [|discriminate].
    injection Hget as <-. apply find_some in Hfind as [Hw' _].
    right. right. right. exists w'. split; [|reflexivity].
    now apply in_rev.
Qed.

(** X6: when no directory of the host has a dollar sign in its name,
    [resolveVariables] puts the values themselves in place of the
    placeholders: one literal first-occurrence substitution per key, in
    the order of the keys. *)
Lemma resolveVariables_literal (host : Host) (value : list string)
  (workspace : option WorkspaceFolder) :
  (forall d, home host = Some d -> Str.plain d = true) ->
  (forall w, workspace = Some w -> Str.plain (fsPath (uri w)) = true) ->
  Str.plain (process_cwd host) = true ->
  (forall w, In w (getWorkspaceFolders host) ->
     Str.plain (fsPath (uri w)) = true) ->
  resolveVariables host value workspace
  = resolveVariablesLiteral host value workspace.
Proof.
  intros Hhome Hgiven Hcwd Hfolders.
  assert (forall k v, In (k, v) (substitutions host workspace) ->
                      Str.plain v = true) as Hplain.
  { intros k v Hin.
    destruct (substitutions_values _ _ _ _ Hin) as [H|[H|[<-|[w [Hw <-]]]]].
    - now apply Hhome.
    - destruct workspace as [w|]; [|discriminate].
      injection H as <-. now apply Hgiven.
    - exact Hcwd.
    - now apply Hfolders. }
  unfold resolveVariables, resolveVariablesLiteral, substitute.
  apply map_ext. revert Hplain.
  induction (substitutions host workspace) as [|[k v] m IH]; intros Hplain s.
  - reflexivity.
  - simpl. rewrite (replace_literal s k v).
    + apply IH. intros k' v' Hin. apply (Hplain k' v'). now right.
    + apply (Hplain k v). now left.
Qed.

(** ** Facts about promises *)

Lemma Promise_all_outcome {A : Type} (ps : list (Promise A)) :
  match Promise_all ps with
  | Fulfilled xs => Forall2 (fun p x => p = Fulfilled x) ps xs
  | Rejected => In Rejected ps
  end.
Proof.
  induction ps as [|p ps IH]; simpl.
  - constructor.
  - destruct p as [a|]; simpl; [|now left].
    destruct (Promise_all ps) as [xs|]; simpl.
    + now constructor.
    + now right.
Qed.

(** [getWorkspaceSettings] settles: it is rejected only when it had to ask
    for the interpreter details and that request was rejected. *)
Lemma getWorkspaceSettings_outcome (host : Host) (namespace : string)
  (workspace : WorkspaceFolder) :
  match getWorkspaceSettings host namespace workspace with
  | Fulfilled _ =>
      configuredInterpreter host namespace workspace <> []
      \/ getInterpreterDetails host (uri workspace) <> Rejected
  | Rejected =>
      configuredInterpreter host namespace workspace = []
      /\ getInterpreterDetails host (uri workspace) = Rejected
  end.
Proof.
  unfold getWorkspaceSettings. fold (configuredInterpreter host namespace workspace).
  destruct (configuredInterpreter host namespace workspace) as [|x l]; simpl.
  - destruct (getInterpreterDetails host (uri workspace)); simpl.
    + right. discriminate.
    + now split.
  - left. discriminate.
Qed.

(** ** The claims *)

(** C2: [checkIfConfigurationChanged] answers [true] exactly when the event
    affects one of the eleven keys [args], [codeAction], [enable], [fixAll],
    [importStrategy], [interpreter], [organizeImports], [path], [run],
    [showNotifications], [enableExperimentalFormatter] under the namespace;
    an event that affects none of them gives [false]. *)
Theorem checkIfConfigurationChanged_watched (e : ConfigurationChangeEvent)
  (namespace : string) :
  List.length watchedKeys = 11
  /\ (checkIfConfigurationChanged e namespace = true
      <-> exists key, In key watchedKeys
            /\ affectsConfiguration e (namespace ++ "." ++ key) None = true)
  /\ ((forall key, In key watchedKeys ->
         affectsConfiguration e (namespace ++ "." ++ key) None = false)
      -> checkIfConfigurationChanged e namespace = false).
Proof.
  assert (settings namespace = map (fun key => namespace ++ "." ++ key) watchedKeys)
    as Hsettings by reflexivity.
  assert (checkIfConfigurationChanged e namespace = true
          <-> exists key, In key watchedKeys
                /\ affectsConfiguration e (namespace ++ "." ++ key) None = true)
    as Hiff.
  { unfold checkIfConfigurationChanged. rewrite Hsettings, existsb_exists.
    split.
    - intros [s [Hin Hs]]. apply in_map_iff in Hin as [key [<- Hkey]].
      now exists key.
    - intros [key [Hkey Hs]]. exists (namespace ++ "." ++ key).
      split; [|exact Hs]. apply in_map_iff. now exists key. }
  split; [reflexivity|]. split; [exact Hiff|].
  intros Hnone. apply not_true_is_false. intros Htrue.
  apply Hiff in Htrue as [key [Hkey Hs]].
  rewrite (Hnone key Hkey) in Hs. discriminate.
Qed.

Lemma checkIfConfigurationChanged_watched_witness :
  checkIfConfigurationChanged (Sample.affects "editor.fontSize") "ruff" = false.
Proof.
  apply (checkIfConfigurationChanged_watched (Sample.affects "editor.fontSize") "ruff").
  intros key Hin. simpl in Hin.
  repeat (destruct Hin as [<-|Hin]; [reflexivity|]). contradiction.
Defined.

(** C3: a key for which the configuration of the workspace folder has no
    value gets its default in the record of [getWorkspaceSettings]: [args]
    and [path] the empty list, [importStrategy] "fromEnvironment", [run]
    "onType", [codeAction] the empty record, [enable], [organizeImports]
    and [fixAll] true, [showNotifications] "off",
    [enableExperimentalFormatter] false.  The record is produced unless
    the interpreter details had to be asked for and were refused. *)
Theorem getWorkspaceSettings_defaults (host : Host) (namespace : string)
  (workspace : WorkspaceFolder) :
  let config :=
    getConfiguration host namespace (Some (ScopeUri (uri workspace))) in
  match getWorkspaceSettings host namespace workspace with
  | Fulfilled r =>
      (get config TStrings "args" = None -> args r = [])
      /\ (get config TStrings "path" = None -> path r = [])
      /\ (get config TImportStrategy "importStrategy" = None ->
          importStrategy r = fromEnvironment)
      /\ (get config TRun "run" = None -> run r = onType)
      /\ (get config TCodeAction "codeAction" = None ->
          codeAction r = emptyCodeAction)
      /\ (get config TBool "enable" = None -> enable r = true)
      /\ (get config TBool "organizeImports" = None -> organizeImports r = true)
      /\ (get config TBool "fixAll" = None -> fixAll r = true)
      /\ (get config TString "showNotifications" = None ->
          showNotifications r = "off")
      /\ (get config TBool "enableExperimentalFormatter" = None ->
          enableExperimentalFormatter r = false)
  | Rejected =>
      configuredInterpreter host namespace workspace = []
      /\ getInterpreterDetails host (uri workspace) = Rejected
  end.
Proof.
  intros config. subst config.
  pose proof (getWorkspaceSettings_outcome host namespace workspace) as Hout.
  unfold getWorkspaceSettings in *.
  destruct (if Nat.eqb _ 0 then _ else _) as [interpreter|]; simpl in *.
  - repeat split; intros H; rewrite H; reflexivity.
  - exact Hout.
Qed.

Lemma getWorkspaceSettings_defaults_witness :
  exists r, getWorkspaceSettings Sample.host "ruff" Sample.folderA = Fulfilled r
    /\ args r = [] /\ run r = onType /\ showNotifications r = "off".
Proof.
  pose proof (getWorkspaceSettings_defaults Sample.host "ruff" Sample.folderA) as H.
  cbv zeta in H.
  destruct (getWorkspaceSettings Sample.host "ruff" Sample.folderA) as [r|] eqn:Hr.
  - exists r. destruct H as [Hargs [_ [_ [Hrun [_ [_ [_ [_ [Hshow _]]]]]]]]].
    split; [reflexivity|].
    split; [apply Hargs; reflexivity|].
    split; [apply Hrun; reflexivity | apply Hshow; reflexivity].
  - destruct H as [_ H]. discriminate H.
Defined.

(** C4: [getGlobalValue] returns the inspected global value when there is
    one, else the inspected default value when there is one, else the
    default it was given; and [getGlobalSettings] computes every field it
    reads from the configuration with [getGlobalValue]. *)
Theorem getGlobalValue_chain (host : Host) (namespace : string)
  (t : SettingType) (config : WorkspaceConfiguration) (key : string)
  (defaultValue : typeOf t) :
  (forall i g, inspect config t key = Some i ->
     Inspection.globalValue i = Some g ->
     getGlobalValue config key defaultValue = g)
  /\ (forall i d, inspect config t key = Some i ->
        Inspection.globalValue i = None -> Inspection.defaultValue i = Some d ->
        getGlobalValue config key defaultValue = d)
  /\ (forall i, inspect config t key = Some i ->
        Inspection.globalValue i = None -> Inspection.defaultValue i = None ->
        getGlobalValue config key defaultValue = defaultValue)
  /\ (inspect config t key = None ->
      getGlobalValue config key defaultValue = defaultValue)
  /\ let global := getConfiguration host namespace None in
     exists r, getGlobalSettings host namespace = Fulfilled r
       /\ args r = getGlobalValue (t := TStrings) global "args" []
       /\ path r = getGlobalValue (t := TStrings) global "path" []
       /\ importStrategy r
          = getGlobalValue (t := TImportStrategy) global "importStrategy"
              fromEnvironment
       /\ run r = getGlobalValue (t := TRun) global "run" onType
       /\ codeAction r
          = getGlobalValue (t := TCodeAction) global "codeAction" emptyCodeAction
       /\ enable r = getGlobalValue (t := TBool) global "enable" true
       /\ organizeImports r
          = getGlobalValue (t := TBool) global "organizeImports" true
       /\ fixAll r = getGlobalValue (t := TBool) global "fixAll" true
       /\ showNotifications r
          = getGlobalValue (t := TString) global "showNotifications" "off"
       /\ enableExperimentalFormatter r
          = getGlobalValue (t := TBool) global "enableExperimentalFormatter" false.
Proof.
  unfold getGlobalValue. repeat split.
  - intros i g -> Hg. simpl. now rewrite Hg.
  - intros i d -> Hg Hd. simpl. now rewrite Hg, Hd.
  - intros i -> Hg Hd. simpl. now rewrite Hg, Hd.
  - intros ->. reflexivity.
  - eexists. split; [reflexivity|]. repeat split.
Qed.

Lemma getGlobalValue_chain_witness :
  getGlobalValue (t := TBool) Sample.userConfiguration "enable" true = false
  /\ getGlobalValue (t := TBool) Sample.userConfiguration "fixAll" true = true.
Proof.
  split.
  - destruct (getGlobalValue_chain Sample.configuredHost "ruff" TBool
                Sample.userConfiguration "enable" true) as [Hglobal _].
    eapply Hglobal; reflexivity.
  - destruct (getGlobalValue_chain Sample.configuredHost "ruff" TBool
                Sample.userConfiguration "fixAll" true) as [_ [_ [_ [Hnone _]]]].
    apply Hnone. reflexivity.
Defined.

(** C5: [getExtensionSettings] returns one settings record per open
    workspace folder, in the order of the folders, each the result of
    [getWorkspaceSettings] for its folder; it is rejected only when
    [getWorkspaceSettings] is rejected for one of the folders. *)
Theorem getExtensionSettings_per_folder (host : Host) (namespace : string) :
  match getExtensionSettings host namespace with
  | Fulfilled rs =>
      List.length rs = List.length (getWorkspaceFolders host)
      /\ Forall2
           (fun workspaceFolder r =>
              getWorkspaceSettings host namespace workspaceFolder = Fulfilled r)
           (getWorkspaceFolders host) rs
  | Rejected =>
      exists workspaceFolder,
        In workspaceFolder (getWorkspaceFolders host)
        /\ getWorkspaceSettings host namespace workspaceFolder = Rejected
  end.
Proof.
  unfold getExtensionSettings.
  pose proof (Promise_all_outcome
                (map (fun w => getWorkspaceSettings host namespace w)
                   (getWorkspaceFolders host))) as H.
  destruct (Promise_all _) as [rs|].
  - assert (Forall2
              (fun w r => getWorkspaceSettings host namespace w = Fulfilled r)
              (getWorkspaceFolders host) rs) as HF.
    { revert rs H. induction (getWorkspaceFolders host) as [|w l IH];
        intros rs H; inversion H; subst; constructor; auto. }
    split; [|exact HF]. symmetry. exact (Forall2_length HF).
  - apply in_map_iff in H as [w [Hw Hin]]. now exists w.
Qed.

(** C6: when the workspace setting [interpreter] is absent or empty,
    [getWorkspaceSettings] takes the path of the interpreter details of
    the workspace URI, or the empty list when they have none; otherwise it
    takes the configured list; either list goes through
    [resolveVariables] on its way into the record. *)
Theorem getWorkspaceSettings_interpreter (host : Host) (namespace : string)
  (workspace : WorkspaceFolder) :
  let configured :=
    getInterpreterFromSetting host namespace (Some (ScopeFolder workspace)) in
  (configured = None \/ configured = Some [] ->
   match getInterpreterDetails host (uri workspace) with
   | Fulfilled details =>
       exists r, getWorkspaceSettings host namespace workspace = Fulfilled r
         /\ interpreter r
            = resolveVariables host (details_path details ?? []) (Some workspace)
   | Rejected => getWorkspaceSettings host namespace workspace = Rejected
   end)
  /\ (forall l, configured = Some l -> l <> [] ->
      exists r, getWorkspaceSettings host namespace workspace = Fulfilled r
        /\ interpreter r = resolveVariables host l (Some workspace)).
Proof.
  intros configured. subst configured. unfold getWorkspaceSettings. split.
  - intros [H|H]; rewrite H; simpl;
      (destruct (getInterpreterDetails host (uri workspace)) as [details|];
       simpl; [eexists; split; reflexivity | reflexivity]).
  - intros l H Hne. rewrite H. destruct l as [|x l]; [contradiction|].
    simpl. eexists. split; reflexivity.
Qed.

Lemma getWorkspaceSettings_interpreter_witness :
  exists r,
    getWorkspaceSettings Sample.configuredHost "ruff" Sample.folderA = Fulfilled r
    /\ interpreter r = ["/work/a/.venv/bin/python"].
Proof.
  destruct (getWorkspaceSettings_interpreter Sample.configuredHost "ruff"
              Sample.folderA) as [_ H].
  destruct (H ["${workspaceFolder}/.venv/bin/python"] eq_refl) as [r [Hr Hi]].
  - discriminate.
  - exists r. split; [exact Hr | exact Hi].
Defined.

(** C7: the record of a workspace has the folder's filesystem path as
    [cwd] and its URI as a string as [workspace]; the global record has the
    working directory of the process in both fields. *)
Theorem settings_cwd_workspace (host : Host) (namespace : string) :
  (forall folder,
     match getWorkspaceSettings host namespace folder with
     | Fulfilled r =>
         cwd r = fsPath (uri folder) /\ workspace r = toString (uri folder)
     | Rejected =>
         configuredInterpreter host namespace folder = []
         /\ getInterpreterDetails host (uri folder) = Rejected
     end)
  /\ exists r, getGlobalSettings host namespace = Fulfilled r
       /\ cwd r = process_cwd host
       /\ workspace r = process_cwd host.
Proof.
  split.
  - intros folder.
    pose proof (getWorkspaceSettings_outcome host namespace folder) as Hout.
    unfold getWorkspaceSettings in *.
    destruct (if Nat.eqb _ 0 then _ else _) as [interpreter|]; simpl in *.
    + now split.
    + exact Hout.
  - eexists. split; [reflexivity|]. now split.
Qed.

(** C10: the record of [getGlobalSettings] always has the empty list as
    [interpreter], whatever the configuration holds for that key. *)
Theorem getGlobalSettings_interpreter_empty (host : Host) (namespace : string) :
  exists r, getGlobalSettings host namespace = Fulfilled r
    /\ interpreter r = [].
Proof. eexists. split; reflexivity. Qed.

(** C9: [resolveVariables] returns as many strings as it is given, and a
    string in which none of the placeholders of the map occurs comes back
    unchanged, at its place. *)
Theorem resolveVariables_length_identity (host : Host) (value : list string)
  (workspace : option WorkspaceFolder) :
  List.length (resolveVariables host value workspace) = List.length value
  /\ Forall2
       (fun s r =>
          (forall k, In k (placeholders host workspace) -> ~ Str.occurs k s) ->
          r = s)
       value (resolveVariables host value workspace).
Proof.
  unfold resolveVariables. split; [apply length_map|].
  apply Forall2_map_r. intros s _ Hno. now apply substitute_absent.
Qed.

Lemma resolveVariables_length_identity_witness :
  resolveVariables Sample.host ["--line-length=88"] (Some Sample.folderA)
  = ["--line-length=88"].
Proof.
  destruct (resolveVariables_length_identity Sample.host ["--line-length=88"]
              (Some Sample.folderA)) as [_ H].
  unfold resolveVariables in *. cbn [map] in *.
  apply Forall2_cons_iff in H as [Hsame _].
  apply (f_equal (fun s => [s])). apply Hsame.
  intros k Hin. simpl in Hin.
  repeat (destruct Hin as [<-|Hin]; [apply indexOf_None; reflexivity|]). contradiction.
Defined.

(** *** Keys that cannot overlap *)

Lemma lacks_append (c : ascii) (a b : string) :
  lacks c (a ++ b) = lacks c a && lacks c b.
Proof.
  induction a as [|d a IH]; simpl; [reflexivity|].
  now rewrite IH, andb_assoc.
Qed.

Lemma lacks_cons_same (c : ascii) (s : string) : lacks c (String c s) = false.
Proof. simpl. now rewrite Ascii.eqb_refl. Qed.

(** With simple folder names every key of the map is well shaped. *)
Lemma placeholders_wellShaped (host : Host)
  (workspace : option WorkspaceFolder) :
  (forall w, In w (getWorkspaceFolders host) -> simpleName (name w) = true) ->
  forall k, In k (placeholders host workspace) -> wellShaped k.
Proof.
  intros Hnames k Hin.
  destruct (placeholders_kinds host workspace k Hin)
    as [->|[->|[->|[w [Hw ->]]]]].
  - exists "{userHome". repeat split.
  - exists "{workspaceFolder". repeat split.
  - exists "{cwd". repeat split.
  - exists ("{workspaceFolder:" ++ name w).
    specialize (Hnames w Hw). unfold simpleName in Hnames.
    apply andb_true_iff in Hnames as [Hd Hb].
    split; [reflexivity|]. split; simpl; assumption.
Qed.

Lemma wellShaped_length (k : string) : wellShaped k -> 2 <= String.length k.
Proof.
  intros [body [-> _]]. simpl. rewrite length_append. simpl. lia.
Qed.

(** The dollar sign of a well shaped key is its first character only. *)
Lemma wellShaped_dollar_first (k m m2 : string) :
  wellShaped k -> k = m ++ String "$" m2 -> m = "".
Proof.
  intros [body [-> [Hd _]]] H.
  destruct m as [|c m]; [reflexivity|]. exfalso.
  simpl in H. injection H as _ H.
  assert (lacks "$" (body ++ "}") = true) as Hall
    by (rewrite lacks_append, Hd; reflexivity).
  rewrite H, lacks_append, lacks_cons_same, andb_false_r in Hall.
  discriminate.
Qed.

(** No well shaped key is the beginning of a longer one. *)
Lemma wellShaped_prefix (k k' m : string) :
  wellShaped k -> wellShaped k' -> k' = k ++ m -> m = "".
Proof.
  intros [body [-> _]] [body' [-> [_ Hb']]] H.
  destruct m as [|c m]; [reflexivity|]. exfalso.
  simpl in H. injection H as H.
  assert (String.length (body ++ "}") <= String.length body') as Hlen.
  { apply (f_equal String.length) in H.
    rewrite !length_append in H. simpl in H. rewrite length_append. simpl.
    lia. }
  symmetry in H.
  destruct (append_eq_split _ _ _ _ H Hlen) as [m' [Hbody' _]].
  rewrite Hbody', append_assoc, !lacks_append in Hb'. simpl in Hb'.
  rewrite andb_false_r in Hb'. discriminate.
Qed.

(** Occurrences of two different well shaped keys lie apart. *)
Lemma wellShaped_apart (k k' a b a' b' : string) :
  wellShaped k -> wellShaped k' -> k <> k' ->
  a ++ k ++ b = a' ++ k' ++ b' ->
  String.length a' + String.length k' <= String.length a
  \/ String.length a + String.length k <= String.length a'.
Proof.
  assert (forall k k' a b a' b',
            wellShaped k -> wellShaped k' ->
            a ++ k ++ b = a' ++ k' ++ b' ->
            String.length a < String.length a' ->
            String.length a + String.length k <= String.length a') as Hlt.
  { clear. intros k k' a b a' b' Hk Hk' H Hlen.
    destruct (Nat.le_gt_cases (String.length a + String.length k)
                (String.length a')) as [Hle|Hgt]; [exact Hle|]. exfalso.
    destruct (append_eq_split a (k ++ b) a' (k' ++ b') H) as [m [Ha' Hm]];
      [lia|].
    assert (String.length m <= String.length k) as Hmk.
    { rewrite Ha', length_append in Hgt. lia. }
    symmetry in Hm.
    destruct (append_eq_split m (k' ++ b') k b Hm Hmk) as [m2 [Hkm Hm2]].
    destruct Hk' as [body' [-> _]]. simpl in Hm2.
    destruct m2 as [|c m2].
    - rewrite append_nil_r in Hkm. subst m.
      rewrite Ha', length_append in Hgt. lia.
    - simpl in Hm2. injection Hm2 as <- _.
      pose proof (wellShaped_dollar_first _ _ _ Hk Hkm) as ->.
      rewrite append_nil_r in Ha'. subst a'. lia. }
  intros Hk Hk' Hne H.
  destruct (Nat.lt_trichotomy (String.length a) (String.length a'))
    as [Hl|[He|Hg]].
  - right. exact (Hlt _ _ _ _ _ _ Hk Hk' H Hl).
  - exfalso. destruct (append_eq_length _ _ _ _ H He) as [-> Hrest].
    destruct (Nat.le_ge_cases (String.length k) (String.length k'))
      as [Hle|Hle].
    + destruct (append_eq_split k b k' b' Hrest Hle) as [m [Hk'm _]].
      pose proof (wellShaped_prefix _ _ _ Hk Hk' Hk'm) as ->.
      rewrite append_nil_r in Hk'm. now apply Hne.
    + symmetry in Hrest.
      destruct (append_eq_split k' b' k b Hrest Hle) as [m [Hkm _]].
      pose proof (wellShaped_prefix _ _ _ Hk' Hk Hkm) as ->.
      rewrite append_nil_r in Hkm. now apply Hne.
  - left. exact (Hlt _ _ _ _ _ _ Hk' Hk (eq_sym H) Hg).
Qed.

(** The step for another key leaves an occurrence of [k] in the string. *)
Lemma replace_other_keeps_one (k k' v s : string) :
  wellShaped k -> wellShaped k' -> k <> k' ->
  Str.occurs k s -> Str.occurs k (Str.replace s k' v).
Proof.
  intros Hk Hk' Hne [a [b Hs]].
  destruct (occurs_dec k' s) as [Hocc|Hno];
    [|rewrite (replace_absent _ _ v Hno); now exists a, b].
  destruct (occurs_first k' s Hocc) as [a' [b' [Hs' Hfirst]]].
  rewrite Hs', (replace_first _ v _ _ Hfirst).
  set (g := Str.GetSubstitution k' a' b' v).
  rewrite Hs in Hs'.
  destruct (wellShaped_apart _ _ _ _ _ _ Hk Hk' Hne Hs') as [Hbefore|Hafter].
  - assert ((a' ++ k') ++ b' = a ++ k ++ b) as Heq
      by (now rewrite append_assoc).
    destruct (append_eq_split _ _ _ _ Heq) as [m [_ Hb']];
      [rewrite length_append; lia|].
    exists (a' ++ g ++ m), b. rewrite Hb'. now rewrite !append_assoc.
  - assert ((a ++ k) ++ b = a' ++ k' ++ b') as Heq
      by (now rewrite append_assoc).
    destruct (append_eq_split _ _ _ _ Heq) as [m [Ha' _]];
      [rewrite length_append; lia|].
    exists a, (m ++ g ++ b'). rewrite Ha'. now rewrite !append_assoc.
Qed.

(** It leaves two occurrences of [k] where there were two. *)
Lemma replace_other_keeps_two (k k' v s : string) :
  wellShaped k -> wellShaped k' -> k <> k' ->
  occursTwice k s -> occursTwice k (Str.replace s k' v).
Proof.
  intros Hk Hk' Hne [a [b [c Hs]]].
  destruct (occurs_dec k' s) as [Hocc|Hno];
    [|rewrite (replace_absent _ _ v Hno); now exists a, b, c].
  destruct (occurs_first k' s Hocc) as [a' [b' [Hs' Hfirst]]].
  rewrite Hs', (replace_first _ v _ _ Hfirst).
  set (g := Str.GetSubstitution k' a' b' v).
  rewrite Hs in Hs'.
  assert ((a ++ k ++ b) ++ k ++ c = a' ++ k' ++ b') as Hs2
    by (now rewrite !append_assoc).
  pose proof (wellShaped_length _ Hk') as Hlen'.
  destruct (wellShaped_apart _ _ _ _ _ _ Hk Hk' Hne Hs') as [Hbefore|Hafter].
  - (* the match lies before the first occurrence *)
    assert ((a' ++ k') ++ b' = a ++ k ++ b ++ k ++ c) as Heq
      by (now rewrite append_assoc).
    destruct (append_eq_split _ _ _ _ Heq) as [m [_ Hb']];
      [rewrite length_append; lia|].
    exists (a' ++ g ++ m), b, c. rewrite Hb'. now rewrite !append_assoc.
  - destruct (wellShaped_apart _ _ _ _ _ _ Hk Hk' Hne Hs2)
      as [Hbefore2|Hafter2].
    + (* the match lies between the two occurrences *)
      assert ((a ++ k) ++ b ++ k ++ c = a' ++ k' ++ b') as Heq
        by (now rewrite append_assoc).
      destruct (append_eq_split _ _ _ _ Heq) as [m [Ha' Hrest]];
        [rewrite length_append; lia|].
      assert ((m ++ k') ++ b' = b ++ k ++ c) as Heq2
        by (now rewrite append_assoc).
      destruct (append_eq_split _ _ _ _ Heq2) as [m2 [Hb Hb']].
      { rewrite Ha', !length_append in Hbefore2.
        rewrite !length_append. lia. }
      exists a, (m ++ g ++ m2), c.
      rewrite Ha', Hb'. now rewrite !append_assoc.
    + (* the match lies after the second occurrence *)
      assert (((a ++ k ++ b) ++ k) ++ c = a' ++ k' ++ b') as Heq
        by (now rewrite !append_assoc).
      destruct (append_eq_split _ _ _ _ Heq) as [m [Ha' _]];
        [rewrite length_append; lia|].
      exists a, b, (m ++ g ++ b'). rewrite Ha'. now rewrite !append_assoc.
Qed.

Lemma substitute_keeps_one (m : StringMap) (k s : string) :
  wellShaped k ->
  (forall k', In k' (map fst m) -> wellShaped k' /\ k <> k') ->
  Str.occurs k s -> Str.occurs k (substitute m s).
Proof.
  intros Hk. revert s. induction m as [|[k' v] m IH]; intros s Hm Hs.
  - exact Hs.
  - rewrite substitute_cons. apply IH.
    + intros k0 Hin. apply Hm. now right.
    + destruct (Hm k' (or_introl eq_refl)) as [Hk' Hne].
      now apply replace_other_keeps_one.
Qed.

Lemma substitute_keeps_two (m : StringMap) (k s : string) :
  wellShaped k ->
  (forall k', In k' (map fst m) -> wellShaped k' /\ k <> k') ->
  occursTwice k s -> occursTwice k (substitute m s).
Proof.
  intros Hk. revert s. induction m as [|[k' v] m IH]; intros s Hm Hs.
  - exact Hs.
  - rewrite substitute_cons. apply IH.
    + intros k0 Hin. apply Hm. now right.
    + destruct (Hm k' (or_introl eq_refl)) as [Hk' Hne].
      now apply replace_other_keeps_two.
Qed.

(** With well shaped keys, a key that occurs twice still occurs after the
    whole loop. *)
Lemma substitute_keeps_second (m : StringMap) (k s : string) :
  NoDup (map fst m) ->
  (forall k', In k' (map fst m) -> wellShaped k') ->
  In k (map fst m) ->
  occursTwice k s -> Str.occurs k (substitute m s).
Proof.
  intros Hnd Hshape Hin Htwice.
  apply in_map_iff in Hin as [[k0 v] [Hk0 Hin]]. simpl in Hk0. subst k0.
  destruct (in_split _ _ Hin) as [m1 [m2 ->]].
  rewrite map_app in Hnd, Hshape. simpl in Hnd, Hshape.
  pose proof (NoDup_remove_2 _ _ _ Hnd) as Hk.
  assert (wellShaped k) as Hwk
    by (apply Hshape, in_or_app; right; now left).
  rewrite substitute_app, substitute_cons.
  apply substitute_keeps_one; [exact Hwk | |].
  - intros k' Hin'. split.
    + apply Hshape, in_or_app. right. now right.
    + intros ->. apply Hk, in_or_app. now right.
  - assert (occursTwice k (substitute m1 s)) as [a [b [c ->]]].
    { apply substitute_keeps_two; [exact Hwk | | exact Htwice].
      intros k' Hin'. split.
      - apply Hshape, in_or_app. now left.
      - intros ->. apply Hk, in_or_app. now left. }
    destruct (replace_keeps_later k v a b c) as [t ->].
    now exists t, c.
Qed.

(** C8, as the code has it: every key of the map is used for one
    [replace], which rewrites the first occurrence of the key in the
    string as it then stands and keeps a later occurrence with all that
    follows it; and when no open folder has a dollar sign or a closing
    brace in its name, a string that holds a placeholder twice still
    holds it in the output. *)
Theorem resolveVariables_first_occurrence (host : Host)
  (value : list string) (workspace : option WorkspaceFolder) :
  NoDup (placeholders host workspace)
  /\ Forall2 (rewrites (substitutions host workspace))
       value (resolveVariables host value workspace)
  /\ (forall k v a b c,
        In (k, v) (substitutions host workspace) ->
        exists t, Str.replace (a ++ k ++ b ++ k ++ c) k v = t ++ k ++ c)
  /\ ((forall w, In w (getWorkspaceFolders host) ->
         simpleName (name w) = true) ->
      forall k, In k (placeholders host workspace) ->
      Forall2 (fun s r => occursTwice k s -> Str.occurs k r)
        value (resolveVariables host value workspace)).
Proof.
  split; [apply substitutions_NoDup|]. split; [|split].
  - unfold resolveVariables. apply Forall2_map_r.
    intros s _. apply substitute_rewrites.
  - intros k v a b c _. apply replace_keeps_later.
  - intros Hnames k Hin.
    unfold resolveVariables. apply Forall2_map_r. intros s _ Htwice.
    apply substitute_keeps_second; [| | exact Hin | exact Htwice].
    + apply substitutions_NoDup.
    + apply placeholders_wellShaped. exact Hnames.
Qed.

Lemma resolveVariables_first_occurrence_witness :
  Str.occurs "${cwd}"
    (substitute (substitutions Sample.host (Some Sample.folderA))
       "${userHome}:${cwd}:${cwd}").
Proof.
  destruct (resolveVariables_first_occurrence Sample.host
              ["${userHome}:${cwd}:${cwd}"] (Some Sample.folderA))
    as [_ [_ [_ H]]].
  assert (forall w, In w (getWorkspaceFolders Sample.host) ->
                    simpleName (name w) = true) as Hnames.
  { intros w Hin. simpl in Hin. destruct Hin as [<-|[<-|[]]]; reflexivity. }
  specialize (H Hnames "${cwd}").
  unfold resolveVariables in H. cbn [map] in H.
  apply Forall2_cons_iff in H as [Hkeep _].
  - apply Hkeep. now exists "${userHome}:", ":", "".
  - simpl. auto.
Defined.

(** C8 as it is worded fails when a folder name holds placeholder text:
    the string below holds [${cwd}] twice, the second time inside
    [${workspaceFolder:x${cwd}], and the output holds it no more. *)
Lemma resolveVariables_second_occurrence_rewritten :
  In "${cwd}" (placeholders Sample.oddHost (Some Sample.folderOdd))
  /\ occursTwice "${cwd}" "${cwd}:${workspaceFolder:x${cwd}"
  /\ resolveVariables Sample.oddHost ["${cwd}:${workspaceFolder:x${cwd}"]
       (Some Sample.folderOdd)
     = ["/tmp:/work/odd"]
  /\ ~ Str.occurs "${cwd}" "/tmp:/work/odd".
Proof.
  split; [simpl; auto|]. split; [|split].
  - now exists "", ":${workspaceFolder:x", "".
  - reflexivity.
  - apply indexOf_None. reflexivity.
Qed.

(** C1 at a home directory whose name holds two dollar signs: the
    placeholder [${userHome}] is not replaced by the home directory, since
    [replace] reads [$$] in the replacement as one dollar sign. *)
Theorem resolveVariables_userHome_dollar :
  home Sample.dollarHost = Some "/home/a$$b"
  /\ resolveVariables Sample.dollarHost ["${userHome}/bin/ruff"]
       (Some Sample.folderA)
     = ["/home/a$b/bin/ruff"]
  /\ resolveVariablesLiteral Sample.dollarHost ["${userHome}/bin/ruff"]
       (Some Sample.folderA)
     = ["/home/a$$b/bin/ruff"].
Proof. repeat split. Qed.

(** ** Further properties of [resolveVariables] *)

Lemma substitutions_In_get (host : Host) (workspace : option WorkspaceFolder)
  (k v : string) :
  In (k, v) (substitutions host workspace)
  <-> map_get (substitutions host workspace) k = Some v.
Proof.
  split; [apply In_map_get, substitutions_NoDup | apply map_get_In].
Qed.

(** X1: the entries of the three fixed placeholders depend on the process
    and on the given folder only, whatever the open folders are called.
    [${userHome}] stands for [HOME] when that is set and not empty, else
    for [USERPROFILE] when that is set and not empty, else it has no entry;
    [${workspaceFolder}] stands for the path of the given folder and has no
    entry without one; [${cwd}] always stands for the working directory. *)
Theorem substitutions_fixed_placeholders (host : Host)
  (workspace : option WorkspaceFolder) (v : string) :
  (In ("${userHome}", v) (substitutions host workspace)
   <-> v <> ""
       /\ (env_HOME host = Some v
           \/ (env_HOME host = None \/ env_HOME host = Some "")
              /\ env_USERPROFILE host = Some v))
  /\ (In ("${workspaceFolder}", v) (substitutions host workspace)
      <-> exists w, workspace = Some w /\ v = fsPath (uri w))
  /\ (In ("${cwd}", v) (substitutions host workspace)
      <-> v = process_cwd host).
Proof.
  rewrite !substitutions_In_get.
  rewrite substitutions_userHome, substitutions_workspaceFolder,
    substitutions_cwd.
  split; [|split].
  - unfold home, or_else, truthy.
    destruct (env_HOME host) as [h|];
      [destruct (h =? "") eqn:Hh|]; simpl;
      try (destruct (env_USERPROFILE host) as [u|];
           [destruct (u =? "") eqn:Hu|]; simpl);
      rewrite ?Hh; simpl;
      repeat match goal with
             | H : (_ =? _) = true |- _ => apply String.eqb_eq in H
             | H : (_ =? _) = false |- _ => apply String.eqb_neq in H
             end;
      subst; intuition congruence.
  - destruct workspace as [w|]; simpl.
    + split.
      * intros [= <-]. now exists w.
      * intros [w' [[= <-] ->]]. reflexivity.
    + split; [discriminate | intros [w [H _]]; discriminate].
  - split; [now intros [= <-] | now intros ->].
Qed.

(** X2: [${workspaceFolder:n}] stands for the path of the last open folder
    called [n], and has no entry when no open folder is called [n]. *)
Theorem substitutions_named_placeholder (host : Host)
  (workspace : option WorkspaceFolder) (n v : string) :
  In (namedPlaceholder n, v) (substitutions host workspace)
  <-> exists w, lastNamed (getWorkspaceFolders host) n = Some w
        /\ v = fsPath (uri w).
Proof.
  rewrite substitutions_In_get, substitutions_named.
  destruct (lastNamed (getWorkspaceFolders host) n) as [w|]; simpl.
  - split.
    + intros [= <-]. now exists w.
    + intros [w' [[= <-] ->]]. reflexivity.
  - split; [discriminate | intros [w [H _]]; discriminate].
Qed.

(** *** The order of the keys *)

Lemma filter_all {A : Type} (p : A -> bool) (l : list A) :
  (forall x, In x l -> p x = true) -> filter p l = l.
Proof.
  induction l as [|x l IH]; intros H; simpl; [reflexivity|].
  rewrite (H x (or_introl eq_refl)). f_equal.
  apply IH. intros y Hy. apply H. now right.
Qed.

Lemma filter_swap {A : Type} (p q : A -> bool) (l : list A) :
  filter p (filter q l) = filter q (filter p l).
Proof.
  induction l as [|x l IH]; simpl; [reflexivity|].
  destruct (p x) eqn:Hp, (q x) eqn:Hq; simpl; rewrite ?Hp, ?Hq, IH;
    reflexivity.
Qed.

Lemma filter_absorb {A : Type} (p q : A -> bool) (l : list A) :
  (forall x, p x = true -> q x = true) -> filter p (filter q l) = filter p l.
Proof.
  intros H. induction l as [|x l IH]; simpl; [reflexivity|].
  destruct (p x) eqn:Hp.
  - rewrite (H x Hp). simpl. now rewrite Hp, IH.
  - destruct (q x); simpl; rewrite ?Hp; exact IH.
Qed.

Lemma firstOccurrences_filter (p : string -> bool) (l : list string) :
  firstOccurrences (filter p l) = filter p (firstOccurrences l).
Proof.
  induction l as [|x l IH]; simpl; [reflexivity|].
  destruct (p x) eqn:Hp; simpl.
  - rewrite IH. f_equal. apply filter_swap.
  - rewrite IH. symmetry. apply filter_absorb.
    intros y Hy.
    destruct (String.eqb_spec y x) as [->|]; [congruence | reflexivity].
Qed.

(** [set] appends a new key and leaves the keys alone otherwise. *)
Lemma map_set_key_order (m : StringMap) (k v : string) :
  map fst (map_set m k v)
  = if existsb (fun k0 => k0 =? k) (map fst m) then map fst m
    else (map fst m ++ [k])%list.
Proof.
  induction m as [|[k0 v0] m IH]; simpl; [reflexivity|].
  destruct (String.eqb_spec k0 k) as [->|Hne]; simpl; [reflexivity|].
  rewrite IH. now destruct (existsb _ (map fst m)).
Qed.

Lemma filter_not_in_app (ks : list string) (x : string) (l : list string) :
  filter (fun k => negb (existsb (fun k0 => k0 =? k) (ks ++ [x]))) l
  = filter (fun k => negb (existsb (fun k0 => k0 =? k) ks))
      (filter (fun y => negb (y =? x)) l).
Proof.
  induction l as [|y ys IH]; simpl; [reflexivity|].
  rewrite existsb_app. simpl. rewrite orb_false_r, negb_orb.
  rewrite (String.eqb_sym x y).
  destruct (y =? x); simpl.
  - rewrite andb_false_r. exact IH.
  - rewrite andb_true_r.
    destruct (existsb (fun k0 => k0 =? y) ks); simpl; now rewrite IH.
Qed.

Lemma set_each_key_order {W : Type} (key value : W -> string)
  (l : list W) (m : StringMap) :
  map fst (set_each key value m l)
  = (map fst m
     ++ firstOccurrences
          (filter (fun k => negb (existsb (fun k0 => k0 =? k) (map fst m)))
             (map key l)))%list.
Proof.
  revert m. induction l as [|w l IH]; intros m.
  - simpl. now rewrite app_nil_r.
  - rewrite set_each_cons, IH, map_set_key_order. simpl map. simpl filter.
    destruct (existsb (fun k0 => k0 =? key w) (map fst m)) eqn:Hin; simpl.
    + reflexivity.
    + rewrite <- app_assoc. simpl. do 2 f_equal.
      rewrite <- firstOccurrences_filter. f_equal.
      rewrite filter_swap. apply filter_not_in_app.
Qed.

(** X3: the loop visits the keys in a fixed order: [${userHome}] when there
    is a home directory, [${workspaceFolder}] when a folder is given,
    [${cwd}], then one key per name of an open folder, in the order in
    which the names first appear. *)
Theorem placeholders_order (host : Host)
  (workspace : option WorkspaceFolder) :
  placeholders host workspace
  = ((if truthy (home host) then ["${userHome}"] else [])
     ++ match workspace with
        | Some _ => ["${workspaceFolder}"]
        | None => []
        end
     ++ ["${cwd}"]
     ++ firstOccurrences
          (map (fun w => namedPlaceholder (name w))
             (getWorkspaceFolders host)))%list.
Proof.
  unfold placeholders, substitutions. fold (home host).
  destruct (home host) as [d|]; [destruct (truthy (Some d))|];
    destruct workspace as [w|];
    (etransitivity;
     [ apply (set_each_key_order (fun w => namedPlaceholder (name w))
                (fun w => fsPath (uri w)))
     | cbn [map_set map fst app String.eqb Ascii.eqb Bool.eqb];
       rewrite filter_all; [reflexivity|];
       intros k Hin; apply in_map_iff in Hin as [w' [<- _]]; reflexivity ]).
Qed.

(** *** Text before the first dollar sign *)

Lemma plain_append (a b : string) :
  Str.plain (a ++ b) = Str.plain a && Str.plain b.
Proof.
  induction a as [|c a IH]; simpl; [reflexivity|].
  now rewrite IH, andb_assoc.
Qed.

(** Every key of the map begins with a dollar sign. *)
Lemma placeholder_starts_dollar (host : Host)
  (workspace : option WorkspaceFolder) (k : string) :
  In k (placeholders host workspace) -> exists k', k = String Str.dollar k'.
Proof.
  intros Hin.
  destruct (placeholders_kinds host workspace k Hin)
    as [->|[->|[->|[w [_ ->]]]]]; eexists; reflexivity.
Qed.

(** A key that begins with a dollar sign does not occur in a string
    without one. *)
Lemma plain_not_occurs (k' s : string) :
  Str.plain s = true -> ~ Str.occurs (String Str.dollar k') s.
Proof.
  intros Hplain [a [b ->]]. rewrite plain_append in Hplain. simpl in Hplain.
  now rewrite andb_false_r in Hplain.
Qed.

(** One step of the loop leaves the text before the first dollar sign. *)
Lemma replace_keeps_plain_prefix (k' v pre rest : string) :
  Str.plain pre = true ->
  exists rest',
    Str.replace (pre ++ rest) (String Str.dollar k') v = pre ++ rest'.
Proof.
  intros Hplain. set (k := String Str.dollar k').
  destruct (occurs_dec k (pre ++ rest)) as [Hocc|Hno].
  - destruct (occurs_first k _ Hocc) as [a [b [Hs Hfirst]]].
    rewrite Hs, (replace_first _ v _ _ Hfirst).
    destruct (Nat.le_gt_cases (String.length pre) (String.length a))
      as [Hle|Hgt].
    + destruct (append_eq_split _ _ _ _ Hs Hle) as [m [-> _]].
      exists (m ++ Str.GetSubstitution k (pre ++ m) b v ++ b).
      now rewrite append_assoc.
    + exfalso. symmetry in Hs.
      destruct (append_eq_split a (k ++ b) pre rest Hs) as [m [Hpre Hm]];
        [lia|].
      destruct m as [|c m].
      * rewrite append_nil_r in Hpre. subst pre. lia.
      * unfold k in Hm. simpl in Hm. injection Hm as <- _.
        rewrite Hpre, plain_append in Hplain. simpl in Hplain.
        now rewrite andb_false_r in Hplain.
  - exists rest. now apply replace_absent.
Qed.

(** X4: [resolveVariables] never changes the text that precedes the first
    dollar sign of a string, and returns a string without dollar sign as it
    is. *)
Theorem resolveVariables_before_dollar (host : Host) (value : list string)
  (workspace : option WorkspaceFolder) :
  Forall2
    (fun s r =>
       (forall pre rest, s = pre ++ rest -> Str.plain pre = true ->
          exists rest', r = pre ++ rest')
       /\ (Str.plain s = true -> r = s))
    value (resolveVariables host value workspace).
Proof.
  unfold resolveVariables. apply Forall2_map_r. intros s _. split.
  - intros pre rest -> Hplain.
    pose proof (placeholder_starts_dollar host workspace) as Hkeys.
    unfold placeholders in Hkeys. revert rest Hkeys.
    induction (substitutions host workspace) as [|[k v] m IH];
      intros rest Hkeys.
    + now exists rest.
    + rewrite substitute_cons.
      destruct (Hkeys k (or_introl eq_refl)) as [k' ->].
      destruct (replace_keeps_plain_prefix k' v pre rest Hplain)
        as [rest1 ->].
      apply IH. intros k0 Hin. apply Hkeys. now right.
  - intros Hplain. apply substitute_absent. intros k Hin.
    destruct (placeholder_starts_dollar host workspace k Hin) as [k' ->].
    now apply plain_not_occurs.
Qed.

Lemma resolveVariables_before_dollar_witness :
  exists rest',
    resolveVariables Sample.host ["--config=${workspaceFolder:b}/ruff.toml"]
      (Some Sample.folderA)
    = ["--config=" ++ rest'].
Proof.
  pose proof (resolveVariables_before_dollar Sample.host
                ["--config=${workspaceFolder:b}/ruff.toml"]
                (Some Sample.folderA)) as H.
  unfold resolveVariables in *. cbn [map] in *.
  apply Forall2_cons_iff in H as [[Hpre _] _].
  destruct (Hpre "--config=" "${workspaceFolder:b}/ruff.toml" eq_refl eq_refl)
    as [rest' Hr].
  exists rest'. exact (f_equal (fun s => [s]) Hr).
Defined.

(** *** Instances *)

(** A search that stops after [a] shows that [a] ends at the first
    occurrence. *)
Lemma first_at_indexOf (k a b : string) :
  Str.indexOf (a ++ k ++ b) k = Some (String.length a) -> Str.first_at k a b.
Proof.
  intros H.
  destruct (indexOf_Some _ _ _ H) as [a0 [b0 [Hs [Hlen Hfirst]]]].
  destruct (append_eq_length _ _ _ _ Hs (eq_sym Hlen)) as [-> Hk].
  apply append_inv_head in Hk. now subst.
Qed.

Lemma resolveVariables_plain_placeholder_witness :
  resolveVariables Sample.host ["--cache-dir=${cwd}/cache"]
    (Some Sample.folderA)
  = ["--cache-dir=/tmp/cache"].
Proof.
  apply (resolveVariables_plain_placeholder Sample.host (Some Sample.folderA)
           "${cwd}" "/tmp" "--cache-dir=" "/cache").
  - reflexivity.
  - reflexivity.
  - apply first_at_indexOf. reflexivity.
  - intros k' Hin Hne. simpl in Hin.
    repeat (destruct Hin as [<-|Hin];
            [first [ now elim Hne
                   | split; apply indexOf_None; reflexivity ]|]).
    contradiction.
Defined.

Lemma resolveVariables_literal_witness :
  resolveVariables Sample.host ["${userHome}/bin/ruff"] (Some Sample.folderA)
  = resolveVariablesLiteral Sample.host ["${userHome}/bin/ruff"]
      (Some Sample.folderA).
Proof.
  apply (resolveVariables_literal Sample.host ["${userHome}/bin/ruff"]
           (Some Sample.folderA)).
  - intros d [= <-]. reflexivity.
  - intros w [= <-]. reflexivity.
  - reflexivity.
  - intros w Hin. simpl in Hin.
    destruct Hin as [<-|[<-|[]]]; reflexivity.
Defined.

(** ** Further properties of the settings records *)

Lemma Promise_all_rejected {A : Type} (ps : list (Promise A)) :
  Promise_all ps = Rejected <-> In Rejected ps.
Proof.
  pose proof (Promise_all_outcome ps) as H. split.
  - intros Hr. now rewrite Hr in H.
  - intros Hin. destruct (Promise_all ps) as [xs|]; [|reflexivity].
    exfalso. revert xs H. induction ps as [|p ps IH]; intros xs H.
    + contradiction.
    + inversion H as [|? x ? xs' Hp Hrest]; subst.
      destruct Hin as [Hin|Hin]; [discriminate | now apply (IH Hin xs')].
Qed.

(** X7: a refused request for the interpreter details is not absorbed.
    When the folder has no interpreter in its settings and
    [getInterpreterDetails] is rejected for its URI, [getWorkspaceSettings]
    is rejected; and when that happens for one open folder,
    [getExtensionSettings] is rejected as a whole, whatever the other
    folders give. *)
Theorem details_rejection_propagates (host : Host) (namespace : string)
  (workspace : WorkspaceFolder) :
  configuredInterpreter host namespace workspace = [] ->
  getInterpreterDetails host (uri workspace) = Rejected ->
  getWorkspaceSettings host namespace workspace = Rejected
  /\ (In workspace (getWorkspaceFolders host) ->
      getExtensionSettings host namespace = Rejected).
Proof.
  intros Hnone Hrejected.
  assert (getWorkspaceSettings host namespace workspace = Rejected) as Hw.
  { pose proof (getWorkspaceSettings_outcome host namespace workspace) as H.
    destruct (getWorkspaceSettings host namespace workspace) as [r|];
      [destruct H; contradiction | reflexivity]. }
  split; [exact Hw|]. intros Hin.
  unfold getExtensionSettings. apply Promise_all_rejected.
  apply in_map_iff. now exists workspace.
Qed.

Lemma details_rejection_propagates_witness :
  getWorkspaceSettings Sample.refusedHost "ruff" Sample.folderB = Rejected
  /\ getExtensionSettings Sample.refusedHost "ruff" = Rejected.
Proof.
  destruct (details_rejection_propagates Sample.refusedHost "ruff"
              Sample.folderB eq_refl eq_refl) as [Hw Hall].
  split; [exact Hw|]. apply Hall. simpl. auto.
Defined.

(** X8: with a non-empty [interpreter] setting the Python extension plays
    no part: whatever [getInterpreterDetails] would answer, the record is
    the same. *)
Theorem getWorkspaceSettings_ignores_details (host : Host)
  (details : Uri -> Promise IInterpreterDetails) (namespace : string)
  (workspace : WorkspaceFolder) :
  configuredInterpreter host namespace workspace <> [] ->
  getWorkspaceSettings (withInterpreterDetails host details) namespace workspace
  = getWorkspaceSettings host namespace workspace.
Proof.
  intros Hne. unfold getWorkspaceSettings.
  change (getInterpreterFromSetting (withInterpreterDetails host details)
            namespace (Some (ScopeFolder workspace)) ?? [])
    with (configuredInterpreter host namespace workspace).
  fold (configuredInterpreter host namespace workspace).
  destruct (configuredInterpreter host namespace workspace) as [|x l];
    [contradiction | reflexivity].
Qed.

Lemma getWorkspaceSettings_ignores_details_witness :
  getWorkspaceSettings
    (withInterpreterDetails Sample.configuredHost Sample.noDetails)
    "ruff" Sample.folderA
  = getWorkspaceSettings Sample.configuredHost "ruff" Sample.folderA.
Proof.
  apply (getWorkspaceSettings_ignores_details Sample.configuredHost
           Sample.noDetails "ruff" Sample.folderA).
  discriminate.
Defined.

(** X10: with nothing configured, neither for the folder nor globally, the
    record of the folder and the global record agree on the ten fields
    that are read from the configuration: both functions fill in the same
    defaults. *)
Theorem defaults_agree (host : Host) (namespace : string)
  (folder : WorkspaceFolder) (r g : ISettings) :
  (forall t key,
     get (getConfiguration host namespace (Some (ScopeUri (uri folder)))) t key
     = None) ->
  (forall t key,
     inspect (getConfiguration host namespace None) t key
       ?. Inspection.globalValue = None
     /\ inspect (getConfiguration host namespace None) t key
          ?. Inspection.defaultValue = None) ->
  getWorkspaceSettings host namespace folder = Fulfilled r ->
  getGlobalSettings host namespace = Fulfilled g ->
  args r = args g /\ path r = path g
  /\ importStrategy r = importStrategy g /\ run r = run g
  /\ codeAction r = codeAction g /\ enable r = enable g
  /\ organizeImports r = organizeImports g /\ fixAll r = fixAll g
  /\ showNotifications r = showNotifications g
  /\ enableExperimentalFormatter r = enableExperimentalFormatter g.
Proof.
  intros Hget Hinspect Hr Hg.
  assert (forall t key (d : typeOf t),
            getGlobalValue (getConfiguration host namespace None) key d = d)
    as Hglobal.
  { intros t key d. unfold getGlobalValue.
    destruct (Hinspect t key) as [-> ->]. reflexivity. }
  unfold getGlobalSettings in Hg. injection Hg as <-.
  unfold getWorkspaceSettings in Hr.
  destruct (if Nat.eqb _ 0 then _ else _) as [interpreter|];
    [|discriminate].
  simpl in Hr. injection Hr as <-. simpl.
  rewrite !Hget, !Hglobal. repeat split.
Qed.

Lemma defaults_agree_witness :
  exists r g,
    getWorkspaceSettings Sample.host "ruff" Sample.folderA = Fulfilled r
    /\ getGlobalSettings Sample.host "ruff" = Fulfilled g
    /\ args r = args g /\ run r = run g /\ enable r = enable g.
Proof.
  do 2 eexists. split; [reflexivity|]. split; [reflexivity|].
  destruct (defaults_agree Sample.host "ruff" Sample.folderA _ _
              (fun _ _ => eq_refl) (fun _ _ => conj eq_refl eq_refl)
              eq_refl eq_refl)
    as [Hargs [_ [_ [Hrun [_ [Henable _]]]]]].
  split; [exact Hargs|]. split; [exact Hrun | exact Henable].
Defined.

(** *** Folders with distinct names *)

Lemma NoDup_map_injective {A B : Type} (f : A -> B) (l : list A) (x y : A) :
  NoDup (map f l) -> In x l -> In y l -> f x = f y -> x = y.
Proof.
  induction l as [|z l IH]; simpl; intros Hnd Hx Hy Hf; [contradiction|].
  inversion Hnd as [|? ? Hnotin Hnd']; subst.
  destruct Hx as [->|Hx], Hy as [->|Hy].
  - reflexivity.
  - exfalso. apply Hnotin. rewrite Hf. now apply in_map.
  - exfalso. apply Hnotin. rewrite <- Hf. now apply in_map.
  - now apply IH.
Qed.

Lemma find_only {A : Type} (p : A -> bool) (l : list A) (w : A) :
  In w l -> p w = true -> (forall x, In x l -> p x = true -> x = w) ->
  find p l = Some w.
Proof.
  induction l as [|z l IH]; simpl; intros Hin Hp Honly; [contradiction|].
  destruct (p z) eqn:Hz.
  - f_equal. apply Honly; [now left | exact Hz].
  - destruct Hin as [->|Hin]; [congruence|].
    apply IH; [exact Hin | exact Hp |].
    intros x Hx. apply Honly. now right.
Qed.

(** X9: when the open folders have pairwise distinct names, the placeholder
    [${workspaceFolder:<name>}] of each open folder stands for the path of
    that very folder. *)
Theorem substitutions_named_unique (host : Host)
  (workspace : option WorkspaceFolder) (w : WorkspaceFolder) :
  NoDup (map name (getWorkspaceFolders host)) ->
  In w (getWorkspaceFolders host) ->
  In (namedPlaceholder (name w), fsPath (uri w)) (substitutions host workspace).
Proof.
  intros Hnd Hin. apply substitutions_In_get.
  rewrite substitutions_named. unfold lastNamed.
  rewrite (find_only _ _ w); [reflexivity | | |].
  - now apply in_rev in Hin.
  - apply String.eqb_refl.
  - intros x Hx Hname. apply in_rev in Hx. apply String.eqb_eq in Hname.
    exact (NoDup_map_injective name _ x w Hnd Hx Hin Hname).
Qed.

Lemma substitutions_named_unique_witness :
  In ("${workspaceFolder:b}", "/work/b")
    (substitutions Sample.host (Some Sample.folderA)).
Proof.
  apply (substitutions_named_unique Sample.host (Some Sample.folderA)
           Sample.folderB).
  - simpl. repeat constructor; simpl; intuition discriminate.
  - simpl. auto.
Defined.
